(** * tile/base/buffer.h : Buffer, View and the vector-backed SimpleBuffer

    A shallow embedding of the buffer/view object model of
    [tile/base/buffer.h] together with the properties its design
    document states about it.

    Objects that the C++ code shares by pointer live in an explicit heap;
    a [View] holds a raw [char*] into that heap, so aliasing between views
    and the backing [std::vector<char>] is part of the model.  Member
    functions are computations in a small monad carrying the heap, C++
    exceptions, and undefined behaviour. *)

From Stdlib Require Import Strings.Byte Strings.String.
From stdpp Require Import gmap list.

Local Open Scope N_scope.

(** ** Scalar types *)

(** [char] is one byte; [size_t] and [uint64_t] are both unsigned 64-bit on
    the supported targets.  The header performs no integer arithmetic on
    them: every size is the length of a [std::vector<char>], which never
    exceeds [max_size()], so the conversion [size_t -> uint64_t] in
    [SimpleBuffer::size] is the identity and no wrap-around arises. *)
Abbreviation char := byte (only parsing).
Abbreviation size_t := N (only parsing).
Abbreviation uint64_t := N (only parsing).

(** What the target's standard library fixes and the header does not:
    [std::vector<char>::max_size()], which is a [size_t] and so below
    [2^64], and the text [what()] returns for the [std::length_error] the
    vector's constructor throws when asked for more elements than that. *)
Class Platform : Type := {
  max_size : size_t;
  max_size_fits : max_size < 2 ^ 64;
  length_error_what : string
}.

(** Address of a heap-allocated [SimpleBuffer]; a [BufferPtr]
    ([std::shared_ptr<Buffer>]) to a live object is such an address. *)
Abbreviation addr := positive (only parsing).
Abbreviation BufferPtr := positive (only parsing).

(** [char*]: null, or a position inside (or one past the end of) the
    storage of the vector owned by the object at [base]. *)
Inductive char_ptr : Type :=
| nullptr
| Ptr (base : addr) (off : N).

Global Instance char_ptr_eq_dec : EqDecision char_ptr.
Proof. solve_decision. Defined.

(** Pointer arithmetic [p + n].  Forming an out-of-range pointer is not
    flagged here; dereferencing it is (see [load] and [store]). *)
Definition ptr_add (p : char_ptr) (n : N) : char_ptr :=
  match p with
  | nullptr => nullptr
  | Ptr b off => Ptr b (off + n)
  end.

(** Pointer difference [last - first], defined inside one array only. *)
Definition ptr_diff (last first : char_ptr) : option N :=
  match first, last with
  | nullptr, nullptr => Some 0
  | Ptr b1 o1, Ptr b2 o2 =>
      if decide (b1 = b2 ∧ o1 ≤ o2) then Some (o2 - o1) else None
  | _, _ => None
  end.

(** ** Exceptions, futures and the monad of member functions *)

(** Objects that can be thrown.  [std::runtime_error] is what the header
    itself raises (line 79); [std::bad_alloc] and [std::length_error] are
    the resource failures of the standard allocation paths;
    [other_exception] stands for an object of any further class, such as
    one a backend defines for its own failures.  A request for storage
    that the target can satisfy is modelled as granted, except where the
    outcome of the request is made explicit (see [operator_new]). *)
Inductive exception : Type :=
| std_runtime_error (what_arg : string)
| std_bad_alloc
| std_length_error (what_arg : string)
| other_exception (class_name what_arg : string).

Definition what (e : exception) : string :=
  match e with
  | std_runtime_error w => w
  | std_bad_alloc => "std::bad_alloc"
  | std_length_error w => w
  | other_exception _ w => w
  end.

(** Thrown as the general-purpose [std::runtime_error] itself, rather
    than as an object of a class dedicated to one kind of failure. *)
Definition generic_exception (e : exception) : bool :=
  match e with
  | std_runtime_error _ => true
  | _ => false
  end.

(** Thrown by the allocation paths on resource exhaustion. *)
Definition resource_failure (e : exception) : bool :=
  match e with
  | std_bad_alloc | std_length_error _ => true
  | _ => false
  end.

Inductive outcome (A : Type) : Type :=
| Val (a : A)
| Exn (e : exception).
Arguments Val {A} a.
Arguments Exn {A} e.

(** A computation over a store [Σ]: [None] is undefined behaviour (a wild
    or null dereference, a dangling handle); otherwise it returns normally
    or throws, with the store it leaves behind. *)
Definition M (Σ A : Type) : Type := Σ → option (outcome A * Σ).

Definition ret {Σ A} (a : A) : M Σ A := λ σ, Some (Val a, σ).

Definition throw {Σ A} (e : exception) : M Σ A := λ σ, Some (Exn e, σ).

Definition undefined {Σ A} : M Σ A := λ _, None.

(** One request to [operator new], with its outcome given: it returns,
    or it throws [std::bad_alloc]. *)
Definition operator_new {Σ} (granted : bool) : M Σ unit :=
  if granted then ret tt else throw std_bad_alloc.

Definition bind {Σ A B} (m : M Σ A) (k : A → M Σ B) : M Σ B :=
  λ σ, match m σ with
       | Some (Val a, σ') => k a σ'
       | Some (Exn e, σ') => Some (Exn e, σ')
       | None => None
       end.

Notation "x <~ m ;; k" := (bind m (λ x, k))
  (at level 100, m at next level, right associativity, only parsing).
Notation "m ;;; k" := (bind m (λ _, k))
  (at level 100, right associativity, only parsing).

(** [boost::future<T>] by its shared state: holding a value, holding an
    exception, or not yet fulfilled. *)
Inductive future (A : Type) : Type :=
| future_value (a : A)
| future_exception (e : exception)
| future_not_ready.
Arguments future_value {A} a.
Arguments future_exception {A} e.
Arguments future_not_ready {A}.

Definition make_ready_future {A} (a : A) : future A := future_value a.

Definition is_ready {A} (f : future A) : bool :=
  match f with future_not_ready => false | _ => true end.

Definition has_value {A} (f : future A) : bool :=
  match f with future_value _ => true | _ => false end.

Definition has_exception {A} (f : future A) : bool :=
  match f with future_exception _ => true | _ => false end.

(** [f.get()] on a fulfilled future; on an unfulfilled one the call would
    wait, which this sequential model gives no result for. *)
Definition get {Σ A} (f : future A) : M Σ A :=
  match f with
  | future_value a => ret a
  | future_exception e => throw e
  | future_not_ready => undefined
  end.

(** ** The heap *)

(** The heap holds, for each live [SimpleBuffer], its only data member
    [data_ : std::vector<char>].  The vector is never resized or
    reassigned after construction, so the address of the object also
    identifies the storage block [data_.data()] points to. *)
Abbreviation heap := (gmap positive (list byte)) (only parsing).

Definition alloc (d : list char) : M heap addr :=
  λ h, let a := fresh (dom h) in Some (Val a, <[a := d]> h).

(** [this->data_] for a handle that must be live. *)
Definition deref (this : BufferPtr) : M heap (list char) :=
  λ h, match h !! this with
       | Some d => Some (Val d, h)
       | None => None
       end.

(** [*p] as an rvalue. *)
Definition load (p : char_ptr) : M heap char :=
  λ h, match p with
       | nullptr => None
       | Ptr b off =>
           match h !! b with
           | Some d =>
               match d !! N.to_nat off with
               | Some c => Some (Val c, h)
               | None => None
               end
           | None => None
           end
       end.

(** [*p = c]. *)
Definition store (p : char_ptr) (c : char) : M heap unit :=
  λ h, match p with
       | nullptr => None
       | Ptr b off =>
           match h !! b with
           | Some d =>
               if decide (N.to_nat off < length d)%nat
               then Some (Val tt, <[b := <[N.to_nat off := c]> d]> h)
               else None
           | None => None
           end
       end.

(** The [n] characters starting at [p], read in order. *)
Fixpoint load_range (p : char_ptr) (n : nat) : M heap (list char) :=
  match n with
  | O => ret []
  | S k =>
      c <~ load p ;;
      cs <~ load_range (ptr_add p 1) k ;;
      ret (c :: cs)
  end.

(** [std::string(first, last)] for character pointers: the characters of
    the range [first, last). *)
Definition string_from_range (first last : char_ptr) : M heap string :=
  match ptr_diff last first with
  | Some n => cs <~ load_range first (N.to_nat n) ;; ret (string_of_list_byte cs)
  | None => undefined
  end.

(** ** class View (lines 20-58) *)

Module View.

(** The data members [data_] and [size_] of the base class. *)
Record t : Type := mk { data_ : char_ptr; size_ : size_t }.

(** [View() {}] with the default member initialisers. *)
Definition default : t := mk nullptr 0.

(** [View(char* data, size_t size)]. *)
Definition new (data : char_ptr) (size : size_t) : t := mk data size.

(** [set_contents] replaces both members of [this]. *)
Definition set_contents (this : t) (data : char_ptr) (size : size_t) : t :=
  mk data size.

Definition data (this : t) : char_ptr := data_ this.
Definition size (this : t) : size_t := size_ this.

(** [operator[]] yields the lvalue [data_[pos]], i.e. the location
    [data_ + pos]; no comparison with [size_] is made. *)
Definition index (this : t) (pos : size_t) : char_ptr :=
  ptr_add (data_ this) pos.

Definition begin (this : t) : char_ptr := data_ this.
Definition cbegin (this : t) : char_ptr := data_ this.
Definition end_ (this : t) : char_ptr := ptr_add (data_ this) (size_ this).
Definition cend (this : t) : char_ptr := ptr_add (data_ this) (size_ this).

(** [std::string str() const]. *)
Definition str (this : t) : M heap string :=
  string_from_range (cbegin this) (cend this).

(** Reading and assigning through [operator[]]: [c = v[pos]] and
    [v[pos] = c]. *)
Definition read (this : t) (pos : size_t) : M heap char :=
  load (index this pos).
Definition write (this : t) (pos : size_t) (c : char) : M heap unit :=
  store (index this pos) c.

End View.

Abbreviation View := View.t (only parsing).

Global Instance View_eq_dec : EqDecision View.
Proof. solve_decision. Defined.

(** ** class Buffer (lines 64-80) *)

Module Buffer.

(** The virtual member functions, as the method table of a concrete
    class over its own store [Σ] and handle type [Ptr].  [Context] is
    [context::Context], declared in a header outside this file and only
    passed through. *)
Record class (Context Σ Ptr : Type) : Type := mk {
  size : Ptr → M Σ uint64_t;
  MapCurrent : Context → Ptr → M Σ (future View);
  MapDiscard : Context → Ptr → M Σ View;
  Clone : Ptr → M Σ Ptr
}.
Arguments mk {Context Σ Ptr}.
Arguments size {Context Σ Ptr}.
Arguments MapCurrent {Context Σ Ptr}.
Arguments MapDiscard {Context Σ Ptr}.
Arguments Clone {Context Σ Ptr}.

(** The body the base class gives [Clone] (line 79). *)
Definition default_Clone {Σ Ptr : Type} (this : Ptr) : M Σ Ptr :=
  throw (std_runtime_error "Not implemented").

(** A class derived from [Buffer]: the three pure virtuals must be
    supplied; [Clone] is inherited from the base unless overridden. *)
Definition derive {Context Σ Ptr : Type}
    (size : Ptr → M Σ uint64_t)
    (MapCurrent : Context → Ptr → M Σ (future View))
    (MapDiscard : Context → Ptr → M Σ View)
    (Clone_override : option (Ptr → M Σ Ptr)) : class Context Σ Ptr :=
  mk size MapCurrent MapDiscard
     (match Clone_override with
      | Some f => f
      | None => default_Clone
      end).

End Buffer.

(** ** class SimpleBuffer (lines 95-122) *)

Module SimpleBuffer.

Module SimpleView.

(** [SimpleView(char* data, std::size_t size) : View(data, size)]. *)
Definition new (data : char_ptr) (size : size_t) : View :=
  View.new data size.

(** [void WriteBack(const context::Context& ctx) final {}]. *)
Definition WriteBack {Context : Type} (ctx : Context) (this : View)
  : M heap unit :=
  ret tt.

End SimpleView.

(** [data_.data()] of the buffer at [this]: its first element. *)
Definition data_ptr (this : BufferPtr) : char_ptr := Ptr this 0.

(** [explicit SimpleBuffer(uint64_t size) : data_(size, '\0')], placed
    in the heap as [std::make_shared] does.  The vector's constructor
    throws [std::length_error] when [size] exceeds [max_size()]; nothing
    has been constructed then. *)
Definition new {P : Platform} (size : uint64_t) : M heap BufferPtr :=
  if decide (size ≤ max_size)
  then alloc (replicate (N.to_nat size) "000"%byte)
  else throw (std_length_error length_error_what).

(** [explicit SimpleBuffer(const std::vector<char>& data) : data_(data)]. *)
Definition new_from (data : list char) : M heap BufferPtr :=
  alloc data.

Definition size (this : BufferPtr) : M heap uint64_t :=
  d <~ deref this ;;
  ret (N.of_nat (length d)).

Definition MapCurrent {Context : Type} (ctx : Context) (this : BufferPtr)
  : M heap (future View) :=
  d <~ deref this ;;
  let view := SimpleView.new (data_ptr this) (N.of_nat (length d)) in
  ret (make_ready_future view).

(** [MapCurrent] with the outcome of its two storage requests made
    explicit: [new SimpleView(...)], and the shared state that
    [boost::make_ready_future] creates for the future.  If the second
    fails, the [unique_ptr] releases the view.  [MapCurrent] above is the
    case where both are granted. *)
Definition MapCurrent_alloc {Context : Type} (ctx : Context)
    (this : BufferPtr) (view_granted state_granted : bool)
  : M heap (future View) :=
  d <~ deref this ;;
  operator_new view_granted ;;;
  let view := SimpleView.new (data_ptr this) (N.of_nat (length d)) in
  operator_new state_granted ;;;
  ret (make_ready_future view).

Definition MapDiscard {Context : Type} (ctx : Context) (this : BufferPtr)
  : M heap View :=
  d <~ deref this ;;
  ret (SimpleView.new (data_ptr this) (N.of_nat (length d))).

(** [std::make_shared<SimpleBuffer>(data_)] selects the constructor
    taking [const std::vector<char>&]. *)
Definition Clone (this : BufferPtr) : M heap BufferPtr :=
  d <~ deref this ;;
  new_from d.

(** [SimpleBuffer] as a class derived from [Buffer], overriding
    [Clone]. *)
Definition vtable (Context : Type) : Buffer.class Context heap BufferPtr :=
  Buffer.derive size MapCurrent MapDiscard (Some Clone).

End SimpleBuffer.

(** ** Client code

    What a caller does with the interface: map a view in one of the two
    ways, copy bytes in through [operator[]], read them back, and run
    arbitrary sequences of calls. *)

Inductive map_kind : Type := via_MapCurrent | via_MapDiscard.

(** [b->MapCurrent(ctx).get()] or [b->MapDiscard(ctx)]. *)
Definition map_view {Context : Type} (k : map_kind) (ctx : Context)
    (b : BufferPtr) : M heap View :=
  match k with
  | via_MapCurrent => f <~ SimpleBuffer.MapCurrent ctx b ;; get f
  | via_MapDiscard => SimpleBuffer.MapDiscard ctx b
  end.

(** [for (c : B) v[pos++] = c;] *)
Fixpoint write_bytes (v : View) (pos : size_t) (B : list char) : M heap unit :=
  match B with
  | [] => ret tt
  | c :: B' => View.write v pos c ;;; write_bytes v (pos + 1) B'
  end.

(** The bytes [v[0], ..., v[v.size() - 1]], read in order. *)
Definition read_bytes (v : View) : M heap (list char) :=
  load_range (View.begin v) (N.to_nat (View.size v)).

(** One call made by a client; handles and views are whatever values the
    client holds. *)
Inductive op (Context : Type) : Type :=
| op_new (size : uint64_t)
| op_new_from (data : list char)
| op_size (b : BufferPtr)
| op_MapCurrent (ctx : Context) (b : BufferPtr)
| op_MapDiscard (ctx : Context) (b : BufferPtr)
| op_Clone (b : BufferPtr)
| op_WriteBack (ctx : Context) (v : View)
| op_write (v : View) (pos : size_t) (c : char)
| op_read (v : View) (pos : size_t)
| op_str (v : View).
Arguments op_new {Context}.
Arguments op_new_from {Context}.
Arguments op_size {Context}.
Arguments op_MapCurrent {Context}.
Arguments op_MapDiscard {Context}.
Arguments op_Clone {Context}.
Arguments op_WriteBack {Context}.
Arguments op_write {Context}.
Arguments op_read {Context}.
Arguments op_str {Context}.

Definition discard {Σ A} (m : M Σ A) : M Σ unit := m ;;; ret tt.

Definition exec {P : Platform} {Context : Type} (o : op Context)
  : M heap unit :=
  match o with
  | op_new n => discard (SimpleBuffer.new n)
  | op_new_from d => discard (SimpleBuffer.new_from d)
  | op_size b => discard (SimpleBuffer.size b)
  | op_MapCurrent ctx b => discard (SimpleBuffer.MapCurrent ctx b)
  | op_MapDiscard ctx b => discard (SimpleBuffer.MapDiscard ctx b)
  | op_Clone b => discard (SimpleBuffer.Clone b)
  | op_WriteBack ctx v => SimpleBuffer.SimpleView.WriteBack ctx v
  | op_write v pos c => View.write v pos c
  | op_read v pos => discard (View.read v pos)
  | op_str v => discard (View.str v)
  end.

Fixpoint run {P : Platform} {Context : Type} (os : list (op Context))
  : M heap unit :=
  match os with
  | [] => ret tt
  | o :: os' => exec o ;;; run os'
  end.

(** Write [B] through a fresh view, write it back, map again, read. *)
Definition round_trip {Context : Type} (k1 k2 : map_kind) (ctx : Context)
    (b : BufferPtr) (B : list char) : M heap (list char) :=
  v <~ map_view k1 ctx b ;;
  write_bytes v 0 B ;;;
  SimpleBuffer.SimpleView.WriteBack ctx v ;;;
  v' <~ map_view k2 ctx b ;;
  read_bytes v'.

(** A 64-bit target: [max_size()] of [std::vector<char>] is
    [PTRDIFF_MAX]. *)
Definition lp64 : Platform :=
  {| max_size := 2 ^ 63 - 1;
     max_size_fits := eq_refl;
     length_error_what := "cannot create std::vector larger than max_size()" |}.

(** A heap with a single live buffer, at address 1, holding [d]. *)
Definition one_buffer (d : list char) : heap := {[ 1%positive := d ]}.

(** A computation that only inspects the store. *)
Definition read_only {Σ A} (m : M Σ A) : Prop :=
  ∀ σ r σ', m σ = Some (r, σ') → σ' = σ.

(** Clone [b], overwrite the original through a view, read the clone. *)
Definition clone_write_original {Context : Type} (ctx : Context)
    (k k' : map_kind) (b : BufferPtr) (B : list char) : M heap (list char) :=
  b2 <~ SimpleBuffer.Clone b ;;
  v <~ map_view k ctx b ;;
  write_bytes v 0 B ;;;
  v2 <~ map_view k' ctx b2 ;;
  read_bytes v2.

(** Clone [b], overwrite the clone through a view, read the original. *)
Definition clone_write_clone {Context : Type} (ctx : Context)
    (k k' : map_kind) (b : BufferPtr) (B : list char) : M heap (list char) :=
  b2 <~ SimpleBuffer.Clone b ;;
  v2 <~ map_view k ctx b2 ;;
  write_bytes v2 0 B ;;;
  v <~ map_view k' ctx b ;;
  read_bytes v.

(** A computation under which every live vector stays live and keeps
    its length. *)
Definition keeps_sizes {A} (m : M heap A) : Prop :=
  ∀ (h h' : heap) (r : outcome A), m h = Some (r, h') →
  ∀ (b : addr) (d : list char), h !! b = Some d →
  ∃ d', h' !! b = Some d' ∧ length d' = length d.

(** A run over the first buffer of the empty heap: map, write through the
    view, write back, clone, map again, write through a view of the
    clone, construct another buffer. *)
Definition sample_ops : list (op unit) :=
  [ op_MapDiscard tt 1%positive;
    op_write (View.mk (Ptr 1%positive 0) 4) 2 "255"%byte;
    op_WriteBack tt (View.mk (Ptr 1%positive 0) 4);
    op_Clone 1%positive;
    op_MapCurrent tt 1%positive;
    op_write (View.mk (Ptr 2%positive 0) 4) 0 "007"%byte;
    op_new 9 ].

(** Construct a buffer of size [n], map it, read the byte at [i]. *)
Definition fresh_buffer_read {P : Platform} {Context : Type} (ctx : Context)
    (k : map_kind)
    (n : uint64_t) (i : size_t) : M heap char :=
  b <~ SimpleBuffer.new n ;;
  v <~ map_view k ctx b ;;
  View.read v i.

(** Construct a buffer of size [n], map it, read all of the view. *)
Definition fresh_buffer_bytes {P : Platform} {Context : Type} (ctx : Context)
    (k : map_kind)
    (n : uint64_t) : M heap (list char) :=
  b <~ SimpleBuffer.new n ;;
  v <~ map_view k ctx b ;;
  read_bytes v.

(** Allocate 16 bytes, [MapDiscard], write the 16 characters, [WriteBack],
    [MapCurrent], [str()]. *)
Definition hello_scenario {P : Platform} {Context : Type} (ctx : Context)
  : M heap string :=
  b <~ SimpleBuffer.new 16 ;;
  v <~ SimpleBuffer.MapDiscard ctx b ;;
  write_bytes v 0 (list_byte_of_string "HELLO, WORLD!!!!") ;;;
  SimpleBuffer.SimpleView.WriteBack ctx v ;;;
  f <~ SimpleBuffer.MapCurrent ctx b ;;
  v' <~ get f ;;
  View.str v'.

(** Map three views of [b] (the third only after the write), write [c]
    at [pos] through the first, and without any [WriteBack] read
    position [pos] through the second (by [operator[]] and by [data()])
    and through the third. *)
Definition aliasing_probe {Context : Type} (ctx : Context)
    (k1 k2 k3 : map_kind) (b : BufferPtr) (pos : size_t) (c : char)
  : M heap (char * char * char) :=
  v1 <~ map_view k1 ctx b ;;
  v2 <~ map_view k2 ctx b ;;
  View.write v1 pos c ;;;
  x <~ View.read v2 pos ;;
  y <~ load (ptr_add (View.data v2) pos) ;;
  v3 <~ map_view k3 ctx b ;;
  z <~ View.read v3 pos ;;
  ret (x, y, z).

(** A call that assigns through [operator[]]. *)
Definition is_write {Context : Type} (o : op Context) : bool :=
  match o with
  | op_write _ _ _ => true
  | _ => false
  end.

(** A computation under which every live vector stays live with the
    same elements. *)
Definition keeps_contents {A} (m : M heap A) : Prop :=
  ∀ (h h' : heap) (r : outcome A), m h = Some (r, h') →
  ∀ (b : addr) (d : list char), h !! b = Some d → h' !! b = Some d.

(** A computation that, run on [h], returns the handle of a new buffer
    holding [contents]: the handle was live for no buffer of [h], and
    every buffer of [h] is still there with the same elements. *)
Definition adds_buffer (m : M heap BufferPtr) (contents : list char)
    (h : heap) : Prop :=
  ∃ (b' : BufferPtr) (h' : heap),
    m h = Some (Val b', h')
    ∧ h !! b' = None
    ∧ h' !! b' = Some contents
    ∧ ∀ (b : BufferPtr) (d : list char), h !! b = Some d → h' !! b = Some d.

(** * Properties *)

(** ** Heap accesses *)

Lemma alloc_spec (d : list char) (h : heap) :
  alloc d h = Some (Val (fresh (dom h)), <[fresh (dom h) := d]> h).
Proof. reflexivity. Qed.

Lemma fresh_not_live (h : heap) : h !! fresh (dom h) = None.
Proof. apply not_elem_of_dom, is_fresh. Qed.

Lemma live_not_fresh (h : heap) (b : addr) (d : list char) :
  h !! b = Some d → b ≠ fresh (dom h).
Proof. intros Hb ->. rewrite fresh_not_live in Hb. discriminate. Qed.

Lemma deref_live (h : heap) (b : BufferPtr) (d : list char) :
  h !! b = Some d → deref b h = Some (Val d, h).
Proof. intros Hb. unfold deref. by rewrite Hb. Qed.

Lemma load_live (h : heap) (b : addr) (off : N) (d : list char) (c : char) :
  h !! b = Some d → d !! N.to_nat off = Some c →
  load (Ptr b off) h = Some (Val c, h).
Proof. intros Hb Hc. unfold load. by rewrite Hb, Hc. Qed.

Lemma store_live (h : heap) (b : addr) (off : N) (d : list char) (c : char) :
  h !! b = Some d → (N.to_nat off < length d)%nat →
  store (Ptr b off) c h = Some (Val tt, <[b := <[N.to_nat off := c]> d]> h).
Proof.
  intros Hb Hlt. unfold store. rewrite Hb.
  destruct (decide _) as [_ | Hn]; [done | contradiction].
Qed.

(** A successful store addressed some live vector in range and replaced
    one element of it. *)
Lemma store_inv (p : char_ptr) (c : char) (h h' : heap) (r : outcome unit) :
  store p c h = Some (r, h') →
  ∃ b off d, p = Ptr b off ∧ h !! b = Some d ∧ (N.to_nat off < length d)%nat
             ∧ r = Val tt ∧ h' = <[b := <[N.to_nat off := c]> d]> h.
Proof.
  unfold store. destruct p as [| b off]; [discriminate |].
  destruct (h !! b) as [d |] eqn:Hb; [| discriminate].
  destruct (decide _) as [Hlt | _]; [| discriminate].
  intros [= <- <-]. by exists b, off, d.
Qed.

(** Reading a range inside a live vector returns that slice and leaves
    the heap alone. *)
Lemma load_range_live (h : heap) (b : addr) (d : list char) (n : nat) :
  h !! b = Some d →
  ∀ off : N, (N.to_nat off + n ≤ length d)%nat →
  load_range (Ptr b off) n h = Some (Val (take n (drop (N.to_nat off) d)), h).
Proof.
  intros Hb. induction n as [| n IH]; intros off Hle; [done |].
  destruct (lookup_lt_is_Some_2 d (N.to_nat off)) as [c Hc]; [lia |].
  cbn [load_range]. unfold bind at 1. rewrite (load_live _ _ _ _ _ Hb Hc).
  unfold bind at 1. cbn [ptr_add]. rewrite IH by lia.
  unfold ret. do 3 f_equal.
  replace (N.to_nat (off + 1)) with (S (N.to_nat off)) by lia.
  by rewrite (drop_S _ _ _ Hc).
Qed.

(** Copying [B] in at [pos] overwrites exactly that slice of the vector
    the view points into. *)
Lemma write_bytes_live (b : addr) (n : size_t) (B : list char) :
  ∀ (h : heap) (d : list char) (pos : N),
  h !! b = Some d → (N.to_nat pos + length B ≤ length d)%nat →
  write_bytes (View.mk (Ptr b 0) n) pos B h
  = Some (Val tt,
          <[b := take (N.to_nat pos) d ++ B
                 ++ drop (N.to_nat pos + length B) d]> h).
Proof.
  induction B as [| c B IH]; intros h d pos Hb Hle.
  - cbn. rewrite Nat.add_0_r, take_drop, insert_id; done.
  - cbn [write_bytes length] in *. unfold bind, View.write, View.index.
    cbn [View.data_ ptr_add]. rewrite N.add_0_l.
    rewrite (store_live _ _ _ d) by (done || lia).
    rewrite (IH _ (<[N.to_nat pos := c]> d)); cycle 1.
    { by rewrite lookup_insert_eq. }
    { rewrite length_insert. lia. }
    rewrite insert_insert_eq. do 3 f_equal.
    replace (N.to_nat (pos + 1)) with (S (N.to_nat pos)) by lia.
    rewrite (take_S_r _ _ c) by (apply list_lookup_insert_eq; lia).
    rewrite take_insert_ge, drop_insert_lt by lia.
    rewrite <- app_assoc. cbn. by rewrite Nat.add_succ_r.
Qed.

Lemma one_buffer_live (d : list char) : one_buffer d !! 1%positive = Some d.
Proof. apply lookup_singleton_eq. Qed.

(** ** Running computations *)

Lemma bind_val {Σ A B} (m : M Σ A) (k : A → M Σ B) (σ σ1 : Σ) (a : A) :
  m σ = Some (Val a, σ1) → bind m k σ = k a σ1.
Proof. intros Hm. unfold bind. by rewrite Hm. Qed.

(** Advance a computation past a call whose result is known. *)
Tactic Notation "step" uconstr(H) := rewrite (bind_val _ _ _ _ _ H).

Lemma bind_inv {Σ A B} (m : M Σ A) (k : A → M Σ B) (σ σ' : Σ) (r : outcome B) :
  bind m k σ = Some (r, σ') →
  (∃ a σ1, m σ = Some (Val a, σ1) ∧ k a σ1 = Some (r, σ'))
  ∨ (∃ e, m σ = Some (Exn e, σ') ∧ r = Exn e).
Proof.
  unfold bind. destruct (m σ) as [[[a | e] σ1] |]; [| | discriminate].
  - intros Hk. left. by exists a, σ1.
  - intros [= <- <-]. right. by exists e.
Qed.

Lemma read_only_ret {Σ A} (a : A) : read_only (Σ := Σ) (ret a).
Proof. by intros σ r σ' [= _ <-]. Qed.

Lemma read_only_throw {Σ A} (e : exception) :
  read_only (Σ := Σ) (A := A) (throw e).
Proof. by intros σ r σ' [= _ <-]. Qed.

Lemma read_only_bind {Σ A B} (m : M Σ A) (k : A → M Σ B) :
  read_only m → (∀ a, read_only (k a)) → read_only (bind m k).
Proof.
  intros Hm Hk σ r σ' [(a & σ1 & H1 & H2) | (e & H1 & _)]%bind_inv.
  - apply Hm in H1 as ->. by apply Hk in H2.
  - by apply Hm in H1.
Qed.

Lemma read_only_deref (b : BufferPtr) : read_only (deref b).
Proof.
  intros h r h'. unfold deref. destruct (h !! b); [| discriminate].
  by intros [= _ <-].
Qed.

Lemma read_only_load (p : char_ptr) : read_only (load p).
Proof.
  intros h r h'. unfold load. destruct p as [| b off]; [discriminate |].
  destruct (h !! b) as [d |]; [| discriminate].
  destruct (d !! N.to_nat off); [| discriminate].
  by intros [= _ <-].
Qed.

Lemma read_only_load_range (n : nat) : ∀ p, read_only (load_range p n).
Proof.
  induction n as [| n IH]; intros p; cbn [load_range].
  - apply read_only_ret.
  - apply read_only_bind; [apply read_only_load |]. intros c.
    apply read_only_bind; [apply IH |]. intros cs. apply read_only_ret.
Qed.

Lemma read_only_str (v : View) : read_only (View.str v).
Proof.
  unfold View.str, string_from_range.
  destruct (ptr_diff _ _) as [n |]; [| by intros h r h' [=]].
  apply read_only_bind; [apply read_only_load_range |].
  intros cs. apply read_only_ret.
Qed.

Lemma read_only_discard {Σ A} (m : M Σ A) : read_only m → read_only (discard m).
Proof.
  intros Hm. apply read_only_bind; [done |]. intros _. apply read_only_ret.
Qed.

(** ** The member functions of SimpleBuffer on a live object *)

Section live.
Context {Context : Type} (ctx : Context).
Context (h : heap) (b : BufferPtr) (d : list char) (Hb : h !! b = Some d).

Lemma size_live :
  SimpleBuffer.size b h = Some (Val (N.of_nat (length d)), h).
Proof using Hb. unfold SimpleBuffer.size. by step (deref_live _ _ _ Hb). Qed.

Lemma MapCurrent_live :
  SimpleBuffer.MapCurrent ctx b h
  = Some (Val (future_value (View.mk (Ptr b 0) (N.of_nat (length d)))), h).
Proof using Hb.
  unfold SimpleBuffer.MapCurrent.
  by step (deref_live _ _ _ Hb).
Qed.

Lemma MapDiscard_live :
  SimpleBuffer.MapDiscard ctx b h
  = Some (Val (View.mk (Ptr b 0) (N.of_nat (length d))), h).
Proof using Hb.
  unfold SimpleBuffer.MapDiscard.
  by step (deref_live _ _ _ Hb).
Qed.

Lemma map_view_live (k : map_kind) :
  map_view k ctx b h
  = Some (Val (View.mk (Ptr b 0) (N.of_nat (length d))), h).
Proof using Hb.
  destruct k; cbn [map_view]; [| apply MapDiscard_live].
  by step MapCurrent_live.
Qed.

Lemma Clone_live :
  SimpleBuffer.Clone b h
  = Some (Val (fresh (dom h)), <[fresh (dom h) := d]> h).
Proof using Hb.
  unfold SimpleBuffer.Clone.
  by step (deref_live _ _ _ Hb).
Qed.

(** Reading a whole view of the buffer returns the vector. *)
Lemma read_bytes_live :
  read_bytes (View.mk (Ptr b 0) (N.of_nat (length d))) h = Some (Val d, h).
Proof using Hb.
  unfold read_bytes, View.begin, View.size. cbn [View.data_ View.size_].
  rewrite (load_range_live _ _ _ _ Hb) by lia.
  rewrite Nat2N.id. change (N.to_nat 0) with O.
  by rewrite drop_0, firstn_all.
Qed.

Lemma read_live (n pos : N) (c : char) :
  d !! N.to_nat pos = Some c →
  View.read (View.mk (Ptr b 0) n) pos h = Some (Val c, h).
Proof using Hb.
  intros Hc. unfold View.read, View.index. cbn [View.data_ ptr_add].
  rewrite N.add_0_l. by apply (load_live _ _ _ d).
Qed.

End live.

(** Mapping a view succeeds only on a live buffer, reads nothing else and
    yields the view of the whole vector. *)
Lemma map_view_inv {Context} (k : map_kind) (ctx : Context) (b : BufferPtr)
    (h h' : heap) (r : outcome View) :
  map_view k ctx b h = Some (r, h') →
  ∃ d, h !! b = Some d ∧ h' = h
       ∧ r = Val (View.mk (Ptr b 0) (N.of_nat (length d))).
Proof.
  destruct (h !! b) as [d |] eqn:Hb.
  - rewrite (map_view_live ctx _ _ _ Hb). intros [= <- <-]. by exists d.
  - destruct k;
      unfold map_view, SimpleBuffer.MapCurrent, SimpleBuffer.MapDiscard,
        bind, deref;
      rewrite Hb; discriminate.
Qed.

(** A call through a [BufferPtr] to a [SimpleBuffer] dispatches to the
    members of [SimpleBuffer], [Clone] included. *)
Lemma SimpleBuffer_dispatch (Context : Type) :
  Buffer.size (SimpleBuffer.vtable Context) = SimpleBuffer.size
  ∧ Buffer.MapCurrent (SimpleBuffer.vtable Context) = SimpleBuffer.MapCurrent
  ∧ Buffer.MapDiscard (SimpleBuffer.vtable Context) = SimpleBuffer.MapDiscard
  ∧ Buffer.Clone (SimpleBuffer.vtable Context) = SimpleBuffer.Clone.
Proof. done. Qed.

(** ** Write-back and remapping *)

(** C1 — Round-trip write-back.  For a live [SimpleBuffer] and any byte
    sequence [B] of the buffer's size: mapping a view (by [MapCurrent] or
    [MapDiscard]), writing [B] through it, calling [WriteBack], and
    mapping a new view (again by either call) gives a view whose bytes
    read exactly [B]; the buffer then holds [B]. *)
Theorem round_trip_write_back {Context : Type} (ctx : Context)
    (k1 k2 : map_kind) (h : heap) (b : BufferPtr) (d B : list char) :
  h !! b = Some d →
  length B = length d →
  round_trip k1 k2 ctx b B h = Some (Val B, <[b := B]> h).
Proof.
  intros Hb Hlen. unfold round_trip.
  step (map_view_live ctx _ _ _ Hb k1).
  assert (Hw : write_bytes (View.mk (Ptr b 0) (N.of_nat (length d))) 0 B h
               = Some (Val tt, <[b := B]> h)).
  { rewrite (write_bytes_live _ _ _ _ d) by (done || cbn; lia).
    replace (N.to_nat 0 + length B)%nat with (length d) by (cbn; lia).
    change (N.to_nat 0) with O. by rewrite take_0, drop_all, app_nil_r. }
  step Hw.
  unfold SimpleBuffer.SimpleView.WriteBack at 1.
  rewrite (bind_val _ _ (<[b := B]> h) (<[b := B]> h) tt) by done.
  assert (Hb' : (<[b := B]> h : heap) !! b = Some B) by apply lookup_insert_eq.
  step (map_view_live ctx _ _ _ Hb' k2).
  apply (read_bytes_live _ _ _ Hb').
Qed.

Lemma round_trip_write_back_witness :
  round_trip via_MapDiscard via_MapCurrent tt 1%positive
    ["001"; "002"; "003"]%byte (one_buffer ["000"; "000"; "000"]%byte)
  = Some (Val ["001"; "002"; "003"]%byte,
          <[1%positive := ["001"; "002"; "003"]%byte]>
            (one_buffer ["000"; "000"; "000"]%byte)).
Proof.
  apply (round_trip_write_back tt via_MapDiscard via_MapCurrent _ _
           ["000"; "000"; "000"]%byte);
    [apply one_buffer_live | reflexivity].
Defined.

(** ** Stores touch one vector and keep every length *)

Lemma store_frame (b : addr) (off : N) (c : char) (h h' : heap)
    (r : outcome unit) (b' : addr) :
  store (Ptr b off) c h = Some (r, h') → b' ≠ b → h' !! b' = h !! b'.
Proof.
  intros (b0 & off0 & d0 & [= <- <-] & _ & _ & _ & ->)%store_inv Hne.
  by apply lookup_insert_ne.
Qed.

Lemma store_length (p : char_ptr) (c : char) (h h' : heap) (r : outcome unit)
    (b : addr) (d : list char) :
  store p c h = Some (r, h') → h !! b = Some d →
  ∃ d', h' !! b = Some d' ∧ length d' = length d.
Proof.
  intros (b0 & off0 & d0 & -> & Hb0 & _ & _ & ->)%store_inv Hb.
  destruct (decide (b0 = b)) as [-> | Hne].
  - rewrite lookup_insert_eq. eexists; split; [done |].
    rewrite length_insert. congruence.
  - rewrite lookup_insert_ne by done. by exists d.
Qed.

Lemma write_bytes_frame (b : addr) (off n : N) (B : list char) (b' : addr) :
  b' ≠ b →
  ∀ (pos : N) (h h' : heap) (r : outcome unit),
  write_bytes (View.mk (Ptr b off) n) pos B h = Some (r, h') →
  h' !! b' = h !! b'.
Proof.
  intros Hne. induction B as [| c B IH]; intros pos h h' r; cbn [write_bytes].
  - by intros [= _ <-].
  - intros [(a & h1 & H1 & H2) | (e & H1 & _)]%bind_inv.
    + apply IH in H2 as ->. by apply (store_frame _ _ _ _ _ _ _ H1).
    + by apply (store_frame _ _ _ _ _ _ _ H1).
Qed.

(** ** Clone *)

(** Writing a full-size [B] through the whole-buffer view replaces the
    vector. *)
Lemma write_bytes_whole (h : heap) (b : addr) (d B : list char) :
  h !! b = Some d → length B = length d →
  write_bytes (View.mk (Ptr b 0) (N.of_nat (length d))) 0 B h
  = Some (Val tt, <[b := B]> h).
Proof.
  intros Hb Hlen.
  rewrite (write_bytes_live _ _ _ _ d) by (done || cbn; lia).
  replace (N.to_nat 0 + length B)%nat with (length d) by (cbn; lia).
  change (N.to_nat 0) with O. by rewrite take_0, drop_all, app_nil_r.
Qed.

(** C2 — Clone equality and independence.  Cloning a live [SimpleBuffer]
    [b] succeeds and yields a distinct buffer [b2] of the same [size()]
    whose bytes, read through a view, equal those of [b] at that moment.
    Afterwards, overwriting [b] through one of its views leaves a read of
    [b2] at the cloned bytes, and the other way round; in any later heap,
    bytes written through a view of one of the two buffers leave the
    vector of the other untouched. *)
Theorem Clone_equal_and_independent {Context : Type} (ctx : Context)
    (h : heap) (b : BufferPtr) (d : list char) :
  h !! b = Some d →
  ∃ (b2 : BufferPtr) (h2 : heap),
    SimpleBuffer.Clone b h = Some (Val b2, h2)
    ∧ b2 ≠ b
    ∧ SimpleBuffer.size b h2 = Some (Val (N.of_nat (length d)), h2)
    ∧ SimpleBuffer.size b2 h2 = Some (Val (N.of_nat (length d)), h2)
    ∧ (∀ k, bind (map_view k ctx b) read_bytes h2 = Some (Val d, h2))
    ∧ (∀ k, bind (map_view k ctx b2) read_bytes h2 = Some (Val d, h2))
    ∧ (∀ k k' B, length B = length d →
         clone_write_original ctx k k' b B h
         = Some (Val d, <[b := B]> h2))
    ∧ (∀ k k' B, length B = length d →
         clone_write_clone ctx k k' b B h
         = Some (Val d, <[b2 := B]> h2))
    ∧ (∀ k pos B (h' h'' : heap) v r,
         map_view k ctx b h' = Some (Val v, h') →
         write_bytes v pos B h' = Some (r, h'') →
         h'' !! b2 = h' !! b2)
    ∧ (∀ k pos B (h' h'' : heap) v r,
         map_view k ctx b2 h' = Some (Val v, h') →
         write_bytes v pos B h' = Some (r, h'') →
         h'' !! b = h' !! b).
Proof.
  intros Hb. set (b2 := fresh (dom h)). set (h2 := <[b2 := d]> h).
  assert (Hne : b ≠ b2) by exact (live_not_fresh _ _ _ Hb).
  assert (Hb2 : h2 !! b2 = Some d) by apply lookup_insert_eq.
  assert (Hb1 : h2 !! b = Some d).
  { unfold h2. by rewrite lookup_insert_ne. }
  assert (Hclone : SimpleBuffer.Clone b h = Some (Val b2, h2))
    by exact (Clone_live _ _ _ Hb).
  exists b2, h2. repeat split.
  - exact Hclone.
  - congruence.
  - exact (size_live _ _ _ Hb1).
  - exact (size_live _ _ _ Hb2).
  - intros k. step (map_view_live ctx _ _ _ Hb1 k).
    exact (read_bytes_live _ _ _ Hb1).
  - intros k. step (map_view_live ctx _ _ _ Hb2 k).
    exact (read_bytes_live _ _ _ Hb2).
  - intros k k' B Hlen. unfold clone_write_original.
    step Hclone.
    step (map_view_live ctx _ _ _ Hb1 k).
    step (write_bytes_whole _ _ _ _ Hb1 Hlen).
    assert (Hb2' : (<[b := B]> h2 : heap) !! b2 = Some d).
    { rewrite lookup_insert_ne; done. }
    step (map_view_live ctx _ _ _ Hb2' k').
    exact (read_bytes_live _ _ _ Hb2').
  - intros k k' B Hlen. unfold clone_write_clone.
    step Hclone.
    step (map_view_live ctx _ _ _ Hb2 k).
    step (write_bytes_whole _ _ _ _ Hb2 Hlen).
    assert (Hb1' : (<[b2 := B]> h2 : heap) !! b = Some d).
    { rewrite lookup_insert_ne; [done | congruence]. }
    step (map_view_live ctx _ _ _ Hb1' k').
    exact (read_bytes_live _ _ _ Hb1').
  - intros k pos B h' h'' v r (d' & _ & _ & [= ->])%map_view_inv Hw.
    apply (write_bytes_frame _ _ _ _ _ (not_eq_sym Hne) _ _ _ _ Hw).
  - intros k pos B h' h'' v r (d' & _ & _ & [= ->])%map_view_inv Hw.
    apply (write_bytes_frame _ _ _ _ _ Hne _ _ _ _ Hw).
Qed.

Lemma Clone_equal_and_independent_witness :
  ∃ (b2 : BufferPtr) (h2 : heap),
    SimpleBuffer.Clone 1%positive (one_buffer ["001"; "002"; "003"]%byte)
    = Some (Val b2, h2)
    ∧ b2 ≠ 1%positive
    ∧ clone_write_original tt via_MapDiscard via_MapCurrent 1%positive
        ["009"; "009"; "009"]%byte (one_buffer ["001"; "002"; "003"]%byte)
      = Some (Val ["001"; "002"; "003"]%byte,
              <[1%positive := ["009"; "009"; "009"]%byte]> h2).
Proof.
  destruct (Clone_equal_and_independent tt _ _ _
              (one_buffer_live ["001"; "002"; "003"]%byte))
    as (b2 & h2 & Hc & Hne & _ & _ & _ & _ & Hw & _).
  exists b2, h2. repeat split; [exact Hc | exact Hne |].
  exact (Hw via_MapDiscard via_MapCurrent ["009"; "009"; "009"]%byte eq_refl).
Defined.

(** The scenario of the design document, run from the empty heap:
    construct from [1,2,3], clone, set the original to [9,9,9] through a
    view, read the clone through a view. *)
Example clone_scenario :
  (b <~ SimpleBuffer.new_from ["001"; "002"; "003"]%byte ;;
   clone_write_original tt via_MapDiscard via_MapDiscard b
     ["009"; "009"; "009"]%byte) (∅ : heap)
  = Some (Val ["001"; "002"; "003"]%byte,
          {[ 1%positive := ["009"; "009"; "009"]%byte;
             2%positive := ["001"; "002"; "003"]%byte ]}).
Proof. vm_compute. reflexivity. Qed.

(** ** The inherited Clone *)

(** C3 (as the code has it) — Default Clone failure.  For every class
    derived from [Buffer] that does not override [Clone], whatever its
    store and its other members, a call of [Clone] throws
    [std::runtime_error] with the message "Not implemented" and leaves
    the store as it was.  The thrown object is of the general-purpose
    class: it differs in type from the allocation failures, and from
    another [std::runtime_error] only by its message. *)
Theorem default_Clone_throws_runtime_error {Context Σ Ptr : Type}
    (size : Ptr → M Σ uint64_t)
    (MapCurrent : Context → Ptr → M Σ (future View))
    (MapDiscard : Context → Ptr → M Σ View)
    (this : Ptr) (σ : Σ) :
  ∃ e : exception,
    Buffer.Clone (Buffer.derive size MapCurrent MapDiscard None) this σ
    = Some (Exn e, σ)
    ∧ e = std_runtime_error "Not implemented"
    ∧ what e = "Not implemented"%string
    ∧ generic_exception e = true
    ∧ resource_failure e = false.
Proof. exists (std_runtime_error "Not implemented"). by repeat split. Qed.

(** C3 (as stated) fails: on a backend with [SimpleBuffer]'s mapping
    members and the inherited [Clone], the call does not end in an
    exception of a dedicated, non-generic class. *)
Lemma default_Clone_is_generic_exception :
  ¬ ∃ e : exception,
      Buffer.Clone
        (Buffer.derive (Context := unit) SimpleBuffer.size
           SimpleBuffer.MapCurrent SimpleBuffer.MapDiscard None)
        1%positive (one_buffer ["000"]%byte)
      = Some (Exn e, one_buffer ["000"]%byte)
      ∧ generic_exception e = false.
Proof. intros (e & [= <-] & Hg). discriminate Hg. Qed.

(** ** Sizes never change *)

Lemma read_only_size (b : BufferPtr) : read_only (SimpleBuffer.size b).
Proof.
  apply read_only_bind; [apply read_only_deref |].
  intros d. apply read_only_ret.
Qed.

Lemma read_only_MapCurrent {Context : Type} (ctx : Context) (b : BufferPtr) :
  read_only (SimpleBuffer.MapCurrent ctx b).
Proof.
  apply read_only_bind; [apply read_only_deref |].
  intros d. apply read_only_ret.
Qed.

Lemma read_only_MapDiscard {Context : Type} (ctx : Context) (b : BufferPtr) :
  read_only (SimpleBuffer.MapDiscard ctx b).
Proof.
  apply read_only_bind; [apply read_only_deref |].
  intros d. apply read_only_ret.
Qed.

Lemma read_only_WriteBack {Context : Type} (ctx : Context) (v : View) :
  read_only (SimpleBuffer.SimpleView.WriteBack ctx v).
Proof. apply read_only_ret. Qed.

Lemma read_only_read (v : View) (pos : size_t) : read_only (View.read v pos).
Proof. apply read_only_load. Qed.

Lemma keeps_sizes_read_only {A} (m : M heap A) : read_only m → keeps_sizes m.
Proof. intros Hm h h' r ->%Hm b d Hb. by exists d. Qed.

Lemma keeps_sizes_bind {A B} (m : M heap A) (k : A → M heap B) :
  keeps_sizes m → (∀ a, keeps_sizes (k a)) → keeps_sizes (bind m k).
Proof.
  intros Hm Hk h h' r [(a & h1 & H1 & H2) | (e & H1 & _)]%bind_inv b d Hb.
  - destruct (Hm _ _ _ H1 _ _ Hb) as (d1 & Hb1 & Hl1).
    destruct (Hk _ _ _ _ H2 _ _ Hb1) as (d2 & Hb2 & Hl2).
    exists d2. split; [done | congruence].
  - exact (Hm _ _ _ H1 _ _ Hb).
Qed.

Lemma keeps_sizes_discard {A} (m : M heap A) :
  keeps_sizes m → keeps_sizes (discard m).
Proof.
  intros Hm. apply keeps_sizes_bind; [done |].
  intros _. apply keeps_sizes_read_only, read_only_ret.
Qed.

Lemma keeps_sizes_alloc (d0 : list char) : keeps_sizes (alloc d0).
Proof.
  intros h h' r [= _ <-] b d Hb. exists d. split; [| done].
  rewrite lookup_insert_ne; [done |]. apply not_eq_sym, (live_not_fresh _ _ _ Hb).
Qed.

Lemma keeps_sizes_store (p : char_ptr) (c : char) : keeps_sizes (store p c).
Proof. intros h h' r Hs b d Hb. exact (store_length _ _ _ _ _ _ _ Hs Hb). Qed.

Lemma keeps_sizes_new {P : Platform} (n : uint64_t) :
  keeps_sizes (SimpleBuffer.new n).
Proof.
  unfold SimpleBuffer.new. destruct (decide _).
  - apply keeps_sizes_alloc.
  - apply keeps_sizes_read_only, read_only_throw.
Qed.

Lemma keeps_sizes_new_from (d0 : list char) :
  keeps_sizes (SimpleBuffer.new_from d0).
Proof. apply keeps_sizes_alloc. Qed.

Lemma keeps_sizes_Clone (b : BufferPtr) : keeps_sizes (SimpleBuffer.Clone b).
Proof.
  apply keeps_sizes_bind.
  - apply keeps_sizes_read_only, read_only_deref.
  - intros d. apply keeps_sizes_new_from.
Qed.

Lemma keeps_sizes_write (v : View) (pos : size_t) (c : char) :
  keeps_sizes (View.write v pos c).
Proof. apply keeps_sizes_store. Qed.

Create HintDb sizes discriminated.

#[local] Hint Resolve read_only_size read_only_MapCurrent read_only_MapDiscard
  read_only_WriteBack read_only_read read_only_str : sizes.
#[local] Hint Resolve keeps_sizes_read_only keeps_sizes_discard keeps_sizes_new
  keeps_sizes_new_from keeps_sizes_Clone keeps_sizes_write : sizes.

(** Every call of the interface keeps sizes: the constructors and [Clone]
    only add a vector, the other members of [SimpleBuffer] and the reads
    of [View] touch nothing, and a store replaces one element. *)
Lemma keeps_sizes_exec {P : Platform} {Context : Type} (o : op Context) :
  keeps_sizes (exec o).
Proof. destruct o; cbn [exec]; auto with sizes. Qed.

Lemma keeps_sizes_run {P : Platform} {Context : Type} (os : list (op Context)) :
  keeps_sizes (run os).
Proof.
  induction os as [| o os IH]; cbn [run].
  - apply keeps_sizes_read_only, read_only_ret.
  - apply keeps_sizes_bind; [apply keeps_sizes_exec | by intros _].
Qed.

Lemma new_spec {P : Platform} (n : uint64_t) (h : heap) :
  n ≤ max_size →
  SimpleBuffer.new n h
  = Some (Val (fresh (dom h)),
          <[fresh (dom h) := replicate (N.to_nat n) "000"%byte]> h).
Proof.
  intros Hn. unfold SimpleBuffer.new.
  destruct (decide _) as [_ | Hgt]; [done | contradiction].
Qed.

Lemma new_too_large {P : Platform} (n : uint64_t) (h : heap) :
  max_size < n →
  SimpleBuffer.new n h = Some (Exn (std_length_error length_error_what), h).
Proof.
  intros Hn. unfold SimpleBuffer.new.
  destruct (decide _) as [Hle | _]; [lia | done].
Qed.

(** The size constructor returns exactly for sizes up to [max_size()]. *)
Lemma new_returns_inv {P : Platform} (n : uint64_t) (h0 h : heap)
    (b : BufferPtr) :
  SimpleBuffer.new n h0 = Some (Val b, h) →
  n ≤ max_size
  ∧ b = fresh (dom h0)
  ∧ h = <[fresh (dom h0) := replicate (N.to_nat n) "000"%byte]> h0.
Proof.
  unfold SimpleBuffer.new. destruct (decide _) as [Hle | _]; [| discriminate].
  intros [= <- <-]. done.
Qed.

(** C4 — Size immutability.  On any target, the constructor
    [SimpleBuffer(n)] returns for every [n] up to the vector's
    [max_size()] and throws [std::length_error], constructing nothing,
    for every larger [n].  Whenever it returns, the buffer's [size()] is
    [n] (a [uint64_t] value), and after any sequence of constructions,
    [size], [MapCurrent], [MapDiscard], [Clone], [WriteBack], reads,
    [str] and writes through views that runs without undefined
    behaviour, [size()] still returns [n]. *)
Theorem size_fixed_at_construction {P : Platform} {Context : Type}
    (n : uint64_t) (h0 : heap) :
  (n ≤ max_size → ∃ (b : BufferPtr) (h : heap),
     SimpleBuffer.new n h0 = Some (Val b, h))
  ∧ (max_size < n →
     SimpleBuffer.new n h0
     = Some (Exn (std_length_error length_error_what), h0))
  ∧ ∀ (b : BufferPtr) (h : heap),
      SimpleBuffer.new n h0 = Some (Val b, h) →
      n < 2 ^ 64
      ∧ SimpleBuffer.size b h = Some (Val n, h)
      ∧ ∀ (os : list (op Context)) (r : outcome unit) (h' : heap),
          run os h = Some (r, h') →
          SimpleBuffer.size b h' = Some (Val n, h').
Proof.
  split; [| split].
  - intros Hn. do 2 eexists. exact (new_spec n h0 Hn).
  - apply new_too_large.
  - intros b h (Hn & -> & ->)%new_returns_inv.
    set (b := fresh (dom h0)).
    set (h := <[b := replicate (N.to_nat n) "000"%byte]> h0).
    assert (Hb : h !! b = Some (replicate (N.to_nat n) "000"%byte))
      by apply lookup_insert_eq.
    split; [pose proof max_size_fits; lia |]. split.
    + rewrite (size_live _ _ _ Hb), length_replicate, N2Nat.id. done.
    + intros os r h' Hrun.
      destruct (keeps_sizes_run os _ _ _ Hrun _ _ Hb) as (d' & Hb' & Hlen).
      rewrite (size_live _ _ _ Hb'), Hlen, length_replicate, N2Nat.id. done.
Qed.

Lemma size_fixed_at_construction_witness :
  ∃ (b : BufferPtr) (h h' : heap),
    SimpleBuffer.new (P := lp64) 4 (∅ : heap) = Some (Val b, h)
    ∧ run (P := lp64) sample_ops h = Some (Val tt, h')
    ∧ SimpleBuffer.size b h' = Some (Val 4, h').
Proof.
  destruct (size_fixed_at_construction (P := lp64) (Context := unit) 4
              (∅ : heap)) as (Hret & _ & Hsize).
  destruct Hret as (b & h & Hnew); [vm_compute; discriminate |].
  destruct (Hsize b h Hnew) as (_ & _ & Hrun).
  assert (Hnew' := Hnew). vm_compute in Hnew'.
  injection Hnew' as <- <-.
  eexists _, _, _. split; [exact Hnew |].
  split; [vm_compute; reflexivity |].
  apply (Hrun sample_ops (Val tt)). vm_compute. reflexivity.
Defined.

(** ** Zero-initialisation *)

(** C5 — Zero-initialisation.  For every [n] up to the vector's
    [max_size()] — the sizes for which the constructor returns — a view
    mapped (by [MapDiscard] or [MapCurrent]) right after constructing a
    [SimpleBuffer] of size [n] has [n] bytes, all of them 0: the whole
    view reads as [n] zero bytes, and so does each index [i < n].  For a
    larger [n] the constructor throws [std::length_error] and there is
    no buffer to map. *)
Theorem fresh_buffer_is_zero {P : Platform} {Context : Type} (ctx : Context)
    (k : map_kind) (n : uint64_t) (h0 : heap) :
  (n ≤ max_size →
   let h := <[fresh (dom h0) := replicate (N.to_nat n) "000"%byte]> h0 in
   fresh_buffer_bytes ctx k n h0
   = Some (Val (replicate (N.to_nat n) "000"%byte), h)
   ∧ ∀ i : size_t, i < n →
       fresh_buffer_read ctx k n i h0 = Some (Val "000"%byte, h))
  ∧ (max_size < n →
     fresh_buffer_bytes ctx k n h0
     = Some (Exn (std_length_error length_error_what), h0)).
Proof.
  split.
  - intros Hn h.
    assert (Hb : h !! fresh (dom h0) = Some (replicate (N.to_nat n) "000"%byte))
      by apply lookup_insert_eq.
    split.
    + unfold fresh_buffer_bytes.
      step (new_spec n h0 Hn).
      step (map_view_live ctx _ _ _ Hb k).
      exact (read_bytes_live _ _ _ Hb).
    + intros i Hi. unfold fresh_buffer_read.
      step (new_spec n h0 Hn).
      step (map_view_live ctx _ _ _ Hb k).
      apply (read_live _ _ _ Hb), lookup_replicate_2. lia.
  - intros Hn. unfold fresh_buffer_bytes, bind.
    by rewrite (new_too_large n h0 Hn).
Qed.

Lemma fresh_buffer_is_zero_witness :
  fresh_buffer_read (P := lp64) tt via_MapDiscard 4 3 (∅ : heap)
  = Some (Val "000"%byte,
          <[fresh (dom (∅ : heap)) := replicate (N.to_nat 4) "000"%byte]>
            (∅ : heap)).
Proof.
  destruct (fresh_buffer_is_zero (P := lp64) tt via_MapDiscard 4 (∅ : heap))
    as [Hfit _].
  destruct Hfit as [_ Hread]; [vm_compute; discriminate |].
  apply Hread. reflexivity.
Defined.

(** ** MapDiscard and MapCurrent *)

(** C6 — MapDiscard/MapCurrent equivalence.  On every heap and handle,
    [MapCurrent] is [MapDiscard] with its view wrapped in a ready future
    (on a dead handle both are undefined).  On a live [SimpleBuffer] both
    succeed without touching the heap and give the same view: its data
    pointer is [data_.data()], its size is the buffer's size, and the
    bytes read through it are the buffer's contents, which [MapDiscard]
    therefore preserves. *)
Theorem MapDiscard_is_MapCurrent {Context : Type} (ctx : Context)
    (h : heap) (b : BufferPtr) :
  SimpleBuffer.MapCurrent ctx b h
  = (v <~ SimpleBuffer.MapDiscard ctx b ;; ret (make_ready_future v)) h
  ∧ ∀ d : list char, h !! b = Some d →
    ∃ v : View,
      SimpleBuffer.MapDiscard ctx b h = Some (Val v, h)
      ∧ SimpleBuffer.MapCurrent ctx b h = Some (Val (future_value v), h)
      ∧ View.data v = SimpleBuffer.data_ptr b
      ∧ Some (Val (View.size v), h) = SimpleBuffer.size b h
      ∧ read_bytes v h = Some (Val d, h).
Proof.
  split.
  - unfold SimpleBuffer.MapCurrent, SimpleBuffer.MapDiscard, bind, deref.
    by destruct (h !! b).
  - intros d Hb. exists (View.mk (Ptr b 0) (N.of_nat (length d))).
    split; [exact (MapDiscard_live ctx _ _ _ Hb) |].
    split; [exact (MapCurrent_live ctx _ _ _ Hb) |].
    split; [done |].
    split; [by rewrite (size_live _ _ _ Hb) |].
    exact (read_bytes_live _ _ _ Hb).
Qed.

Lemma MapDiscard_is_MapCurrent_witness :
  ∃ v : View,
    SimpleBuffer.MapDiscard tt 1%positive
      (one_buffer ["104"; "105"]%byte) = Some (Val v, one_buffer ["104"; "105"]%byte)
    ∧ SimpleBuffer.MapCurrent tt 1%positive (one_buffer ["104"; "105"]%byte)
      = Some (Val (future_value v), one_buffer ["104"; "105"]%byte)
    ∧ read_bytes v (one_buffer ["104"; "105"]%byte)
      = Some (Val ["104"; "105"]%byte, one_buffer ["104"; "105"]%byte).
Proof.
  destruct (MapDiscard_is_MapCurrent tt (one_buffer ["104"; "105"]%byte)
              1%positive) as [_ H].
  destruct (H _ (one_buffer_live _)) as (v & Hd & Hc & _ & _ & Hr).
  by exists v.
Defined.

Lemma MapCurrent_alloc_granted {Context : Type} (ctx : Context)
    (b : BufferPtr) (h : heap) :
  SimpleBuffer.MapCurrent_alloc ctx b true true h
  = SimpleBuffer.MapCurrent ctx b h.
Proof.
  unfold SimpleBuffer.MapCurrent_alloc, SimpleBuffer.MapCurrent, bind, deref.
  by destruct (h !! b).
Qed.

(** C7 (as the code has it) — Reference MapCurrent.  On a live
    [SimpleBuffer], with any context, [MapCurrent] makes no transfer and
    leaves the heap as it is.  When its two storage requests (the
    [SimpleView] object and the future's shared state) are granted, it
    returns a future that is ready, holds a value and no exception, and
    whose [get] yields a view with the vector's [data()] as data pointer
    and the vector's size, through which every element of the vector is
    read in place.  When either request is refused it throws
    [std::bad_alloc] synchronously.  In no case does it return a future
    that is not ready or holds an exception: the asynchronous failure
    channel is never taken. *)
Theorem MapCurrent_fails_only_on_allocation {Context : Type} (ctx : Context)
    (h : heap) (b : BufferPtr) (d : list char)
    (view_granted state_granted : bool) :
  h !! b = Some d →
  (view_granted = true → state_granted = true →
   ∃ (f : future View) (v : View),
     SimpleBuffer.MapCurrent_alloc ctx b view_granted state_granted h
     = Some (Val f, h)
     ∧ is_ready f = true
     ∧ has_value f = true
     ∧ has_exception f = false
     ∧ get f h = Some (Val v, h)
     ∧ View.data v = SimpleBuffer.data_ptr b
     ∧ View.size v = N.of_nat (length d)
     ∧ ∀ (pos : size_t) (c : char),
         d !! N.to_nat pos = Some c → View.read v pos h = Some (Val c, h))
  ∧ (view_granted && state_granted = false →
     SimpleBuffer.MapCurrent_alloc ctx b view_granted state_granted h
     = Some (Exn std_bad_alloc, h))
  ∧ (∀ (f : future View) (h' : heap),
       SimpleBuffer.MapCurrent_alloc ctx b view_granted state_granted h
       = Some (Val f, h') →
       h' = h ∧ is_ready f = true ∧ has_exception f = false).
Proof.
  intros Hb. split; [| split].
  - intros -> ->.
    exists (future_value (View.mk (Ptr b 0) (N.of_nat (length d)))),
           (View.mk (Ptr b 0) (N.of_nat (length d))).
    split.
    { rewrite MapCurrent_alloc_granted. exact (MapCurrent_live ctx _ _ _ Hb). }
    do 6 (split; [done |]).
    intros pos c Hc. exact (read_live _ _ _ Hb _ _ _ Hc).
  - intros Hg. unfold SimpleBuffer.MapCurrent_alloc.
    step (deref_live _ _ _ Hb).
    destruct view_granted, state_granted; done.
  - intros f h'. unfold SimpleBuffer.MapCurrent_alloc.
    step (deref_live _ _ _ Hb).
    destruct view_granted, state_granted; cbn; try discriminate.
    by intros [= <- <-].
Qed.

Lemma MapCurrent_fails_only_on_allocation_witness :
  ∃ (f : future View) (v : View),
    SimpleBuffer.MapCurrent_alloc tt 1%positive true true
      (one_buffer ["104"; "105"]%byte)
    = Some (Val f, one_buffer ["104"; "105"]%byte)
    ∧ is_ready f = true
    ∧ get f (one_buffer ["104"; "105"]%byte)
      = Some (Val v, one_buffer ["104"; "105"]%byte)
    ∧ View.read v 1 (one_buffer ["104"; "105"]%byte)
      = Some (Val "105"%byte, one_buffer ["104"; "105"]%byte).
Proof.
  destruct (MapCurrent_fails_only_on_allocation tt _ _ _ true true
              (one_buffer_live ["104"; "105"]%byte)) as [Hok _].
  destruct (Hok eq_refl eq_refl)
    as (f & v & Hm & Hr & _ & _ & Hg & _ & _ & Hread).
  exists f, v. repeat split; [exact Hm | exact Hr | exact Hg |].
  apply Hread. reflexivity.
Defined.

(** C7 (as stated) fails: on a live buffer whose [MapCurrent] is refused
    the storage for the view object, the call does not return a future;
    the synchronous failure channel is taken. *)
Lemma MapCurrent_can_fail_synchronously :
  ¬ ∀ view_granted state_granted : bool,
      ∃ f : future View,
        SimpleBuffer.MapCurrent_alloc tt 1%positive view_granted state_granted
          (one_buffer ["104"; "105"]%byte)
        = Some (Val f, one_buffer ["104"; "105"]%byte).
Proof. intros H. destruct (H false true) as [f [=]]. Qed.

(** ** View::str *)

Lemma ptr_diff_add (b : addr) (off n : N) :
  ptr_diff (ptr_add (Ptr b off) n) (Ptr b off) = Some n.
Proof.
  cbn [ptr_add ptr_diff]. destruct (decide _) as [_ | Hn].
  - f_equal. lia.
  - exfalso. apply Hn. split; [done | lia].
Qed.

(** [str()] of a view lying inside a live vector is the text of exactly
    that slice; the heap is left alone. *)
Lemma str_live (h : heap) (b : addr) (off n : N) (d : list char) :
  h !! b = Some d → (N.to_nat off + N.to_nat n ≤ length d)%nat →
  View.str (View.mk (Ptr b off) n) h
  = Some (Val (string_of_list_byte (take (N.to_nat n) (drop (N.to_nat off) d))), h).
Proof.
  intros Hb Hle. unfold View.str, View.cbegin, View.cend, string_from_range.
  cbn [View.data_ View.size_]. rewrite ptr_diff_add.
  by step (load_range_live _ _ _ _ Hb _ Hle).
Qed.

(** C8 — End-to-end scenario and [str].  From any heap, on a target
    whose vectors can hold 16 elements, allocating a
    16-byte [SimpleBuffer], mapping it with [MapDiscard], writing the 16
    bytes of "HELLO, WORLD!!!!" through the view, calling [WriteBack],
    then [MapCurrent] and [str()] returns exactly "HELLO, WORLD!!!!".  In
    general, for a view whose range lies inside a live vector, [str()]
    returns the string made of exactly the [size()] bytes starting at
    [data()], and the heap is unchanged. *)
Theorem str_reads_mapped_bytes {P : Platform} {Context : Type}
    (ctx : Context) (h0 : heap) :
  (16 ≤ max_size →
   hello_scenario ctx h0
   = Some (Val "HELLO, WORLD!!!!"%string,
           <[fresh (dom h0) := list_byte_of_string "HELLO, WORLD!!!!"]> h0))
  ∧ ∀ (v : View) (h : heap) (b : addr) (off : N) (d : list char),
      View.data v = Ptr b off →
      h !! b = Some d →
      (N.to_nat off + N.to_nat (View.size v) ≤ length d)%nat →
      View.str v h
      = Some (Val (string_of_list_byte
                     (take (N.to_nat (View.size v)) (drop (N.to_nat off) d))),
              h)
      ∧ read_bytes v h
        = Some (Val (take (N.to_nat (View.size v)) (drop (N.to_nat off) d)), h).
Proof.
  split.
  - intros Hfit. unfold hello_scenario.
    step (new_spec 16 h0 Hfit).
    set (b := fresh (dom h0)).
    set (h1 := <[b := replicate (N.to_nat 16) "000"%byte]> h0).
    assert (Hb1 : h1 !! b = Some (replicate (N.to_nat 16) "000"%byte))
      by apply lookup_insert_eq.
    step (MapDiscard_live ctx _ _ _ Hb1).
    rewrite (bind_val _ _ _ _ _
               (write_bytes_whole _ _ _ (list_byte_of_string "HELLO, WORLD!!!!")
                  Hb1 eq_refl)).
    unfold SimpleBuffer.SimpleView.WriteBack at 1.
    set (h2 := <[b := list_byte_of_string "HELLO, WORLD!!!!"]> h1).
    rewrite (bind_val _ _ h2 h2 tt) by done.
    assert (Hb2 : h2 !! b = Some (list_byte_of_string "HELLO, WORLD!!!!"))
      by apply lookup_insert_eq.
    step (MapCurrent_live ctx _ _ _ Hb2).
    cbn [get]. rewrite (bind_val _ _ h2 h2 _) by done.
    rewrite (str_live _ _ _ _ _ Hb2) by (cbn; lia).
    unfold h2, h1. rewrite insert_insert_eq. reflexivity.
  - intros [p n] h b off d Hp Hb Hle. cbn in Hp. subst p.
    split; [exact (str_live _ _ _ _ _ Hb Hle) |].
    exact (load_range_live _ _ _ _ Hb _ Hle).
Qed.

(** The scenario evaluated from the empty heap. *)
Example hello_scenario_empty :
  hello_scenario (P := lp64) tt (∅ : heap)
  = Some (Val "HELLO, WORLD!!!!"%string,
          {[ 1%positive := list_byte_of_string "HELLO, WORLD!!!!" ]}).
Proof. vm_compute. reflexivity. Qed.

Lemma str_reads_mapped_bytes_witness :
  hello_scenario (P := lp64) tt (∅ : heap)
  = Some (Val "HELLO, WORLD!!!!"%string,
          <[fresh (dom (∅ : heap)) := list_byte_of_string "HELLO, WORLD!!!!"]>
            (∅ : heap))
  ∧ View.str (View.mk (Ptr 1%positive 1) 2)
      (one_buffer ["097"; "098"; "099"; "100"]%byte)
    = Some (Val "bc"%string, one_buffer ["097"; "098"; "099"; "100"]%byte).
Proof.
  destruct (str_reads_mapped_bytes (P := lp64) tt (∅ : heap)) as [Hs H].
  split; [apply Hs; vm_compute; discriminate |].
  destruct (H (View.mk (Ptr 1%positive 1) 2)
              (one_buffer ["097"; "098"; "099"; "100"]%byte)
              1%positive 1 ["097"; "098"; "099"; "100"]%byte
              eq_refl (one_buffer_live _) ltac:(cbn; lia)) as [Hstr _].
  exact Hstr.
Defined.

(** ** View size against buffer size *)

(** C9 — View size bound.  A view obtained from a [SimpleBuffer] [b] by
    [MapCurrent] or [MapDiscard] has [size()] at most [b]'s [size()], at
    the moment of mapping and after any later sequence of calls that
    runs without undefined behaviour ([WriteBack] on the view
    included). *)
Theorem view_size_bounded {P : Platform} {Context : Type} (ctx : Context)
    (k : map_kind)
    (h h1 h2 : heap) (b : BufferPtr) (v : View)
    (os : list (op Context)) (r : outcome unit) :
  map_view k ctx b h = Some (Val v, h1) →
  run os h1 = Some (r, h2) →
  ∃ n n' : uint64_t,
    SimpleBuffer.size b h1 = Some (Val n, h1)
    ∧ SimpleBuffer.size b h2 = Some (Val n', h2)
    ∧ View.size v ≤ n
    ∧ View.size v ≤ n'.
Proof.
  intros (d & Hb & -> & [= ->])%map_view_inv Hrun.
  destruct (keeps_sizes_run os _ _ _ Hrun _ _ Hb) as (d' & Hb' & Hlen).
  exists (N.of_nat (length d)), (N.of_nat (length d')).
  split; [exact (size_live _ _ _ Hb) |].
  split; [exact (size_live _ _ _ Hb') |].
  cbn [View.size View.size_]. rewrite Hlen. lia.
Qed.

Lemma view_size_bounded_witness :
  ∃ n n' : uint64_t,
    SimpleBuffer.size 1%positive (one_buffer (replicate 4 "000"%byte))
    = Some (Val n, one_buffer (replicate 4 "000"%byte))
    ∧ SimpleBuffer.size 1%positive
        (<[2%positive := replicate 9 "000"%byte]>
         (<[3%positive := ["007"; "000"; "255"; "000"]%byte]>
          (<[1%positive := ["000"; "000"; "255"; "000"]%byte]> (∅ : heap))))
      = Some (Val n',
              <[2%positive := replicate 9 "000"%byte]>
              (<[3%positive := ["007"; "000"; "255"; "000"]%byte]>
               (<[1%positive := ["000"; "000"; "255"; "000"]%byte]> (∅ : heap))))
    ∧ View.size (View.mk (Ptr 1%positive 0) 4) ≤ n
    ∧ View.size (View.mk (Ptr 1%positive 0) 4) ≤ n'.
Proof.
  apply (view_size_bounded (P := lp64) tt via_MapCurrent
           (one_buffer (replicate 4 "000"%byte)) _ _ _ _
           [ op_write (View.mk (Ptr 1%positive 0) 4) 2 "255"%byte;
             op_WriteBack tt (View.mk (Ptr 1%positive 0) 4);
             op_new 9;
             op_Clone 1%positive;
             op_write (View.mk (Ptr 3%positive 0) 4) 0 "007"%byte ]
           (Val tt)); vm_compute; reflexivity.
Defined.

(** ** Aliasing *)

(** C10 — Aliasing.  All views of a live [SimpleBuffer], however mapped,
    carry the same data pointer, that of the backing vector.  A byte
    written through one view at an index inside the buffer is, with no
    [WriteBack] in between, what [operator[]] and [data()] of another
    view mapped earlier return at that index, and what a view mapped
    afterwards returns; the write lands in the buffer's vector itself. *)
Theorem views_alias_backing_store {Context : Type} (ctx : Context)
    (k1 k2 k3 : map_kind) (h : heap) (b : BufferPtr) (d : list char)
    (pos : size_t) (c : char) :
  h !! b = Some d →
  pos < N.of_nat (length d) →
  (∀ k, ∃ v, map_view k ctx b h = Some (Val v, h)
             ∧ View.data v = SimpleBuffer.data_ptr b)
  ∧ aliasing_probe ctx k1 k2 k3 b pos c h
    = Some (Val (c, c, c), <[b := <[N.to_nat pos := c]> d]> h).
Proof.
  intros Hb Hpos. split.
  - intros k. eexists. split; [exact (map_view_live ctx _ _ _ Hb k) | done].
  - unfold aliasing_probe.
    step (map_view_live ctx _ _ _ Hb k1).
    step (map_view_live ctx _ _ _ Hb k2).
    assert (Hlt : (N.to_nat pos < length d)%nat) by lia.
    assert (Hw : View.write (View.mk (Ptr b 0) (N.of_nat (length d))) pos c h
                 = Some (Val tt, <[b := <[N.to_nat pos := c]> d]> h)).
    { unfold View.write, View.index. cbn [View.data_ ptr_add].
      rewrite N.add_0_l. exact (store_live _ _ _ _ _ Hb Hlt). }
    step Hw.
    set (d' := <[N.to_nat pos := c]> d). set (h' := <[b := d']> h).
    assert (Hb' : h' !! b = Some d') by apply lookup_insert_eq.
    assert (Hc : d' !! N.to_nat pos = Some c)
      by (apply list_lookup_insert_eq; lia).
    step (read_live _ _ _ Hb' _ _ _ Hc).
    assert (Hl : load (ptr_add (View.data (View.mk (Ptr b 0) (N.of_nat (length d)))) pos) h'
                 = Some (Val c, h')).
    { cbn [View.data View.data_ ptr_add]. rewrite N.add_0_l.
      exact (load_live _ _ _ _ _ Hb' Hc). }
    step Hl.
    step (map_view_live ctx _ _ _ Hb' k3).
    by step (read_live _ _ _ Hb' _ _ _ Hc).
Qed.

Lemma views_alias_backing_store_witness :
  aliasing_probe tt via_MapCurrent via_MapDiscard via_MapCurrent 1%positive
    1 "042"%byte (one_buffer ["001"; "002"; "003"]%byte)
  = Some (Val ("042"%byte, "042"%byte, "042"%byte),
          <[1%positive := <[N.to_nat 1 := "042"%byte]> ["001"; "002"; "003"]%byte]>
            (one_buffer ["001"; "002"; "003"]%byte)).
Proof.
  apply (views_alias_backing_store tt via_MapCurrent via_MapDiscard
           via_MapCurrent _ _ _ 1 "042"%byte (one_buffer_live _)).
  reflexivity.
Defined.

(** * Further properties of the code *)

(** ** Bounds of operator[] *)

(** X1 — [operator[]] as an rvalue, on a view mapped from a live
    [SimpleBuffer]: at an index below the buffer's size it returns the
    element of the backing vector at that index and leaves the heap
    alone; at any index from the size on, the access is undefined (there
    is no bounds check and no exception). *)
Theorem mapped_read_bounds {Context : Type} (ctx : Context) (k : map_kind)
    (h : heap) (b : BufferPtr) (d : list char) (pos : size_t) :
  h !! b = Some d →
  (pos < N.of_nat (length d) →
   ∃ c, d !! N.to_nat pos = Some c
        ∧ (v <~ map_view k ctx b ;; View.read v pos) h = Some (Val c, h))
  ∧ (N.of_nat (length d) ≤ pos →
     (v <~ map_view k ctx b ;; View.read v pos) h = None).
Proof.
  intros Hb. split; intros Hpos; step (map_view_live ctx _ _ _ Hb k).
  - destruct (lookup_lt_is_Some_2 d (N.to_nat pos)) as [c Hc]; [lia |].
    exists c. split; [done |]. exact (read_live _ _ _ Hb _ _ _ Hc).
  - unfold View.read, View.index, load. cbn [View.data_ ptr_add].
    rewrite N.add_0_l, Hb, (lookup_ge_None_2 d) by lia. done.
Qed.

Lemma mapped_read_bounds_witness :
  (v <~ map_view via_MapCurrent tt 1%positive ;; View.read v 2)
    (one_buffer ["104"; "105"]%byte) = None.
Proof.
  apply (mapped_read_bounds tt via_MapCurrent _ _ _ 2 (one_buffer_live _)).
  cbn. lia.
Defined.

(** X2 — [operator[]] as an lvalue, on a view mapped from a live
    [SimpleBuffer]: assigning at an index below the buffer's size
    replaces exactly that element of the backing vector; assigning at any
    index from the size on is undefined (the vector is never grown). *)
Theorem mapped_write_bounds {Context : Type} (ctx : Context) (k : map_kind)
    (h : heap) (b : BufferPtr) (d : list char) (pos : size_t) (c : char) :
  h !! b = Some d →
  (pos < N.of_nat (length d) →
   (v <~ map_view k ctx b ;; View.write v pos c) h
   = Some (Val tt, <[b := <[N.to_nat pos := c]> d]> h))
  ∧ (N.of_nat (length d) ≤ pos →
     (v <~ map_view k ctx b ;; View.write v pos c) h = None).
Proof.
  intros Hb. split; intros Hpos; step (map_view_live ctx _ _ _ Hb k);
    unfold View.write, View.index; cbn [View.data_ ptr_add];
    rewrite N.add_0_l.
  - apply (store_live _ _ _ _ _ Hb). lia.
  - unfold store. rewrite Hb. destruct (decide _) as [Hlt | _]; [lia | done].
Qed.

Lemma mapped_write_bounds_witness :
  (v <~ map_view via_MapDiscard tt 1%positive ;; View.write v 1 "033"%byte)
    (one_buffer ["104"; "105"]%byte)
  = Some (Val tt,
          <[1%positive := <[N.to_nat 1 := "033"%byte]> ["104"; "105"]%byte]>
            (one_buffer ["104"; "105"]%byte)).
Proof.
  apply (mapped_write_bounds tt via_MapDiscard _ _ _ 1 "033"%byte
           (one_buffer_live _)).
  reflexivity.
Defined.

(** ** Stores and loads compose as in plain memory *)

Lemma store_store_same (p : char_ptr) (c1 c2 : char) (h : heap) :
  (store p c1 ;;; store p c2) h = store p c2 h.
Proof.
  unfold bind, store. destruct p as [| b off]; [done |].
  destruct (h !! b) as [d |] eqn:Hb; [| done].
  destruct (decide _) as [Hlt | Hge]; [| done].
  rewrite lookup_insert_eq, length_insert.
  destruct (decide _) as [_ | Hn]; [| contradiction].
  by rewrite insert_insert_eq, list_insert_insert_eq.
Qed.

Lemma store_store_commute (p1 p2 : char_ptr) (c1 c2 : char) (h : heap) :
  p1 ≠ p2 →
  (store p1 c1 ;;; store p2 c2) h = (store p2 c2 ;;; store p1 c1) h.
Proof.
  intros Hne. unfold bind, store.
  destruct p1 as [| b1 o1], p2 as [| b2 o2]; try done.
  - destruct (h !! b2) as [d2 |]; [| done]. by destruct (decide _).
  - destruct (h !! b1) as [d1 |]; [| done]. by destruct (decide _).
  - destruct (decide (b1 = b2)) as [-> | Hb].
    + assert (Ho : N.to_nat o1 ≠ N.to_nat o2) by (intros Ho; apply Hne; f_equal; lia).
      destruct (h !! b2) as [d |] eqn:Hd; [| done].
      destruct (decide (N.to_nat o1 < length d)%nat) as [H1 | H1],
               (decide (N.to_nat o2 < length d)%nat) as [H2 | H2];
        rewrite ?lookup_insert_eq, ?length_insert;
        repeat (destruct (decide _); try lia); try done.
      rewrite !insert_insert_eq. do 3 f_equal.
      by apply list_insert_insert_ne.
    + destruct (h !! b1) as [d1 |] eqn:Hd1, (h !! b2) as [d2 |] eqn:Hd2;
        repeat (destruct (decide (_ < _)%nat));
        rewrite ?lookup_insert_ne, ?Hd1, ?Hd2 by done;
        repeat (destruct (decide (_ < _)%nat)); try lia; try done.
      do 2 f_equal. by apply insert_insert_ne.
Qed.

Lemma load_after_store_other (p p' : char_ptr) (c : char) (h : heap) :
  p ≠ p' →
  (store p c ;;; load p') h = (x <~ load p' ;; store p c ;;; ret x) h.
Proof.
  intros Hne. unfold bind, store, load, ret.
  destruct p as [| b off], p' as [| b' off']; try done.
  - destruct (h !! b') as [d' |]; [| done]. by destruct (d' !! _).
  - destruct (h !! b) as [d |]; [| done]. by destruct (decide _).
  - destruct (decide (b = b')) as [-> | Hb].
    + assert (Ho : N.to_nat off ≠ N.to_nat off')
        by (intros Ho; apply Hne; f_equal; lia).
      destruct (h !! b') as [d |] eqn:Hd; [| done].
      destruct (decide _) as [Hlt | Hge].
      * rewrite lookup_insert_eq, list_lookup_insert_ne by done.
        destruct (d !! N.to_nat off'); [| done].
        rewrite Hd. destruct (decide _); [done | contradiction].
      * destruct (d !! N.to_nat off'); [| done].
        rewrite Hd. destruct (decide _); [contradiction | done].
    + destruct (h !! b) as [d |] eqn:Hd.
      * destruct (decide _) as [Hlt | Hge].
        -- rewrite lookup_insert_ne by done.
           destruct (h !! b') as [d' |]; [| done].
           destruct (d' !! _); [| done].
           rewrite Hd. destruct (decide _); [done | contradiction].
        -- destruct (h !! b') as [d' |]; [| done].
           destruct (d' !! _); [| done].
           rewrite Hd. destruct (decide _); [contradiction | done].
      * destruct (h !! b') as [d' |]; [| done].
        destruct (d' !! _); [| done]. by rewrite Hd.
Qed.

Lemma store_of_load (p : char_ptr) (h : heap) :
  (x <~ load p ;; store p x) h = (load p ;;; ret tt) h.
Proof.
  unfold bind, store, load, ret. destruct p as [| b off]; [done |].
  destruct (h !! b) as [d |] eqn:Hd; [| done].
  destruct (d !! N.to_nat off) as [c |] eqn:Hc; [| done].
  rewrite Hd. destruct (decide _) as [_ | Hn].
  - by rewrite (list_insert_id _ _ _ Hc), (insert_id _ _ _ Hd).
  - exfalso. apply Hn. by apply lookup_lt_Some in Hc.
Qed.

Lemma index_injective (v : View) (pos1 pos2 : size_t) (b : addr) (off : N) :
  View.data v = Ptr b off → pos1 ≠ pos2 →
  View.index v pos1 ≠ View.index v pos2.
Proof.
  destruct v as [p n]. cbn. intros -> Hne. unfold View.index. cbn.
  intros [= Heq]. lia.
Qed.

(** X3 — Overwriting through [operator[]].  For any view, index and
    heap: of two assignments to the same index only the second shows
    (assigning [c1] and then [c2] is the same as assigning [c2]); and
    assigning back the value just read from an index leaves the heap as
    the read found it.  Both hold also where the access is undefined:
    then both sides are. *)
Theorem write_same_index (v : View) (pos : size_t) (c1 c2 : char) (h : heap) :
  (View.write v pos c1 ;;; View.write v pos c2) h = View.write v pos c2 h
  ∧ (x <~ View.read v pos ;; View.write v pos x) h
    = (View.read v pos ;;; ret tt) h.
Proof. split; [apply store_store_same | apply store_of_load]. Qed.

(** X4 — Distinct indexes of a view are independent.  For any view and
    two different indexes, assignments to the two commute, and an
    assignment to one does not change what a read of the other returns
    (reading after the assignment equals reading before it). *)
Theorem write_other_index (v : View) (pos pos' : size_t) (c c' : char)
    (h : heap) :
  pos ≠ pos' →
  (View.write v pos c ;;; View.write v pos' c') h
  = (View.write v pos' c' ;;; View.write v pos c) h
  ∧ (View.write v pos c ;;; View.read v pos') h
    = (x <~ View.read v pos' ;; View.write v pos c ;;; ret x) h.
Proof.
  intros Hne. unfold View.write, View.read.
  destruct (View.data v) as [| b off] eqn:Hp.
  - destruct v as [p n]. cbn in Hp. subst p. by split.
  - pose proof (index_injective v pos pos' b off Hp Hne) as Hi.
    split; [by apply store_store_commute | by apply load_after_store_other].
Qed.

Lemma write_other_index_witness :
  (View.write (View.mk (Ptr 1%positive 0) 3) 0 "120"%byte ;;;
   View.read (View.mk (Ptr 1%positive 0) 3) 2)
    (one_buffer ["097"; "098"; "099"]%byte)
  = (x <~ View.read (View.mk (Ptr 1%positive 0) 3) 2 ;;
     View.write (View.mk (Ptr 1%positive 0) 3) 0 "120"%byte ;;; ret x)
    (one_buffer ["097"; "098"; "099"]%byte).
Proof.
  apply (write_other_index (View.mk (Ptr 1%positive 0) 3) 0 2
           "120"%byte "000"%byte).
  discriminate.
Defined.

(** ** Buffers are separate objects *)

(** X5 — Distinct buffers never alias.  For two different live
    [SimpleBuffer]s, assigning through a view of the first (at an index
    inside it) leaves the bytes read through a view of the second exactly
    as they were. *)
Theorem distinct_buffers_do_not_alias {Context : Type} (ctx : Context)
    (k k' : map_kind) (h : heap) (b b' : BufferPtr) (d d' : list char)
    (pos : size_t) (c : char) :
  h !! b = Some d →
  h !! b' = Some d' →
  b ≠ b' →
  pos < N.of_nat (length d) →
  (v <~ map_view k ctx b ;;
   View.write v pos c ;;;
   v' <~ map_view k' ctx b' ;;
   read_bytes v') h
  = Some (Val d', <[b := <[N.to_nat pos := c]> d]> h).
Proof.
  intros Hb Hb' Hne Hpos.
  step (map_view_live ctx _ _ _ Hb k).
  assert (Hw : View.write (View.mk (Ptr b 0) (N.of_nat (length d))) pos c h
               = Some (Val tt, <[b := <[N.to_nat pos := c]> d]> h)).
  { unfold View.write, View.index. cbn [View.data_ ptr_add].
    rewrite N.add_0_l. apply (store_live _ _ _ _ _ Hb). lia. }
  step Hw.
  assert (Hb1 : (<[b := <[N.to_nat pos := c]> d]> h : heap) !! b' = Some d')
    by (by rewrite lookup_insert_ne).
  step (map_view_live ctx _ _ _ Hb1 k').
  exact (read_bytes_live _ _ _ Hb1).
Qed.

Lemma distinct_buffers_do_not_alias_witness :
  (v <~ map_view via_MapDiscard tt 1%positive ;;
   View.write v 0 "255"%byte ;;;
   v' <~ map_view via_MapCurrent tt 2%positive ;;
   read_bytes v')
    (<[2%positive := ["007"; "008"]%byte]> (one_buffer ["001"]%byte))
  = Some (Val ["007"; "008"]%byte,
          <[1%positive := <[N.to_nat 0 := "255"%byte]> ["001"]%byte]>
            (<[2%positive := ["007"; "008"]%byte]> (one_buffer ["001"]%byte))).
Proof.
  apply (distinct_buffers_do_not_alias tt via_MapDiscard via_MapCurrent).
  - rewrite lookup_insert_ne by discriminate. apply one_buffer_live.
  - apply lookup_insert_eq.
  - discriminate.
  - reflexivity.
Defined.

Lemma alloc_adds_buffer (d0 : list char) (h : heap) :
  adds_buffer (alloc d0) d0 h.
Proof.
  exists (fresh (dom h)), (<[fresh (dom h) := d0]> h).
  split; [done |]. split; [apply fresh_not_live |].
  split; [apply lookup_insert_eq |].
  intros b d Hb. rewrite lookup_insert_ne; [done |].
  apply not_eq_sym, (live_not_fresh _ _ _ Hb).
Qed.

(** X6 — Construction adds one buffer and disturbs none.  The size
    constructor for a size up to [max_size()], the constructor from
    bytes, and [Clone] of a live buffer each return a handle that
    belonged to no live buffer, bound to the new contents ([size] zero
    bytes, the given bytes, the bytes of the cloned buffer), and every
    buffer that was live keeps its bytes.  The size constructor for a
    larger size throws [std::length_error] and leaves the heap as it
    was. *)
Theorem construction_adds_buffer {P : Platform} (h : heap) (n : uint64_t)
    (d0 : list char) (b0 : BufferPtr) (d : list char) :
  (n ≤ max_size →
   adds_buffer (SimpleBuffer.new n) (replicate (N.to_nat n) "000"%byte) h)
  ∧ (max_size < n →
     SimpleBuffer.new n h
     = Some (Exn (std_length_error length_error_what), h))
  ∧ adds_buffer (SimpleBuffer.new_from d0) d0 h
  ∧ (h !! b0 = Some d → adds_buffer (SimpleBuffer.Clone b0) d h).
Proof.
  split; [| split; [apply new_too_large |]].
  - intros Hn.
    destruct (alloc_adds_buffer (replicate (N.to_nat n) "000"%byte) h)
      as (b' & h' & Ha & Hrest).
    exists b', h'. split; [| done]. rewrite <- Ha. exact (new_spec n h Hn).
  - split; [apply alloc_adds_buffer |].
    intros Hb. destruct (alloc_adds_buffer d h) as (b' & h' & Ha & Hrest).
    exists b', h'. split; [| done].
    unfold SimpleBuffer.Clone. step (deref_live _ _ _ Hb). exact Ha.
Qed.

Lemma construction_adds_buffer_witness :
  adds_buffer (SimpleBuffer.new (P := lp64) 3) (replicate (N.to_nat 3) "000"%byte)
    (one_buffer ["001"; "002"]%byte)
  ∧ adds_buffer (SimpleBuffer.Clone 1%positive) ["001"; "002"]%byte
      (one_buffer ["001"; "002"]%byte).
Proof.
  destruct (construction_adds_buffer (P := lp64)
              (one_buffer ["001"; "002"]%byte) 3 []
              1%positive ["001"; "002"]%byte) as (Hnew & _ & _ & Hclone).
  split.
  - apply Hnew. vm_compute. discriminate.
  - apply Hclone, one_buffer_live.
Defined.

(** X7 — Construction from bytes round-trips.  A [SimpleBuffer]
    constructed from a byte sequence reports the sequence's length as
    its [size()], and a view mapped from it has that size and reads back
    exactly the sequence (the empty sequence included). *)
Theorem new_from_round_trip {Context : Type} (ctx : Context) (k : map_kind)
    (d0 : list char) (h : heap) :
  (b <~ SimpleBuffer.new_from d0 ;;
   n <~ SimpleBuffer.size b ;;
   v <~ map_view k ctx b ;;
   bs <~ read_bytes v ;;
   ret (n, View.size v, bs)) h
  = Some (Val (N.of_nat (length d0), N.of_nat (length d0), d0),
          <[fresh (dom h) := d0]> h).
Proof.
  step (alloc_spec d0 h).
  assert (Hb : (<[fresh (dom h) := d0]> h : heap) !! fresh (dom h) = Some d0)
    by apply lookup_insert_eq.
  step (size_live _ _ _ Hb). step (map_view_live ctx _ _ _ Hb k).
  by step (read_bytes_live _ _ _ Hb).
Qed.

(** ** What calls other than assignments leave alone *)

Lemma keeps_contents_read_only {A} (m : M heap A) :
  read_only m → keeps_contents m.
Proof. by intros Hm h h' r ->%Hm b d Hb. Qed.

Lemma keeps_contents_bind {A B} (m : M heap A) (k : A → M heap B) :
  keeps_contents m → (∀ a, keeps_contents (k a)) → keeps_contents (bind m k).
Proof.
  intros Hm Hk h h' r [(a & h1 & H1 & H2) | (e & H1 & _)]%bind_inv b d Hb.
  - exact (Hk _ _ _ _ H2 _ _ (Hm _ _ _ H1 _ _ Hb)).
  - exact (Hm _ _ _ H1 _ _ Hb).
Qed.

Lemma keeps_contents_discard {A} (m : M heap A) :
  keeps_contents m → keeps_contents (discard m).
Proof.
  intros Hm. apply keeps_contents_bind; [done |].
  intros _. apply keeps_contents_read_only, read_only_ret.
Qed.

Lemma keeps_contents_alloc (d0 : list char) : keeps_contents (alloc d0).
Proof.
  intros h h' r [= _ <-] b d Hb.
  rewrite lookup_insert_ne; [done |]. apply not_eq_sym, (live_not_fresh _ _ _ Hb).
Qed.

Lemma keeps_contents_Clone (b : BufferPtr) :
  keeps_contents (SimpleBuffer.Clone b).
Proof.
  apply keeps_contents_bind.
  - apply keeps_contents_read_only, read_only_deref.
  - intros d. apply keeps_contents_alloc.
Qed.

Lemma keeps_contents_new {P : Platform} (n : uint64_t) :
  keeps_contents (SimpleBuffer.new n).
Proof.
  unfold SimpleBuffer.new. destruct (decide _).
  - apply keeps_contents_alloc.
  - apply keeps_contents_read_only, read_only_throw.
Qed.

Lemma keeps_contents_exec {P : Platform} {Context : Type} (o : op Context) :
  is_write o = false → keeps_contents (exec o).
Proof.
  destruct o; cbn [is_write exec]; intros Hw; try discriminate.
  - apply keeps_contents_discard, keeps_contents_new.
  - apply keeps_contents_discard, keeps_contents_alloc.
  - apply keeps_contents_read_only, read_only_discard, read_only_size.
  - apply keeps_contents_read_only, read_only_discard, read_only_MapCurrent.
  - apply keeps_contents_read_only, read_only_discard, read_only_MapDiscard.
  - apply keeps_contents_discard, keeps_contents_Clone.
  - apply keeps_contents_read_only, read_only_WriteBack.
  - apply keeps_contents_read_only, read_only_discard, read_only_read.
  - apply keeps_contents_read_only, read_only_discard, read_only_str.
Qed.

(** X8 — Only assignments change a buffer.  After any sequence of calls
    that contains no assignment through [operator[]] — constructions,
    [size], [MapCurrent], [MapDiscard], [Clone], [WriteBack], reads and
    [str] in any order and number — every buffer that was live holds
    exactly the bytes it held before. *)
Theorem only_writes_change_contents {P : Platform} {Context : Type}
    (os : list (op Context))
    (h h' : heap) (r : outcome unit) (b : BufferPtr) (d : list char) :
  forallb (λ o, negb (is_write o)) os = true →
  run os h = Some (r, h') →
  h !! b = Some d →
  h' !! b = Some d.
Proof.
  revert h. induction os as [| o os IH]; intros h Hnw Hrun Hb.
  - injection Hrun as _ <-. exact Hb.
  - cbn [forallb] in Hnw. apply andb_prop in Hnw as [Ho Hos].
    apply negb_true_iff in Ho. cbn [run] in Hrun.
    apply bind_inv in Hrun as [(a & h1 & H1 & H2) | (e & H1 & _)].
    + exact (IH _ Hos H2 (keeps_contents_exec o Ho _ _ _ H1 _ _ Hb)).
    + exact (keeps_contents_exec o Ho _ _ _ H1 _ _ Hb).
Qed.

Lemma only_writes_change_contents_witness :
  (<[2%positive := ["005"; "006"]%byte]> (one_buffer ["005"; "006"]%byte) : heap)
    !! 1%positive = Some ["005"; "006"]%byte.
Proof.
  apply (only_writes_change_contents (P := lp64)
           [ op_MapDiscard tt 1%positive;
             op_WriteBack tt (View.mk (Ptr 1%positive 0) 2);
             op_Clone 1%positive;
             op_str (View.mk (Ptr 2%positive 0) 2);
             op_read (View.mk (Ptr 1%positive 0) 2) 1 ]
           (one_buffer ["005"; "006"]%byte) _ (Val tt)).
  - reflexivity.
  - vm_compute. reflexivity.
  - apply one_buffer_live.
Defined.

(** X9 — A view stays usable.  Once a view of a [SimpleBuffer] is
    mapped, no later sequence of calls (running without undefined
    behaviour, [WriteBack] on the view included) invalidates it: mapping
    the buffer again yields an equal view (same data pointer and size),
    and reading all of the old view, or calling [str] on it, gives the
    bytes the buffer holds now. *)
Theorem view_stays_valid {P : Platform} {Context : Type} (ctx : Context)
    (k k' : map_kind)
    (h h1 h2 : heap) (b : BufferPtr) (v : View)
    (os : list (op Context)) (r : outcome unit) :
  map_view k ctx b h = Some (Val v, h1) →
  run os h1 = Some (r, h2) →
  ∃ d2 : list char,
    h2 !! b = Some d2
    ∧ map_view k' ctx b h2 = Some (Val v, h2)
    ∧ read_bytes v h2 = Some (Val d2, h2)
    ∧ View.str v h2 = Some (Val (string_of_list_byte d2), h2).
Proof.
  intros (d & Hb & -> & [= ->])%map_view_inv Hrun.
  destruct (keeps_sizes_run os _ _ _ Hrun _ _ Hb) as (d2 & Hb2 & Hlen).
  exists d2. rewrite <- Hlen. split; [done |].
  split; [exact (map_view_live ctx _ _ _ Hb2 k') |].
  split; [exact (read_bytes_live _ _ _ Hb2) |].
  rewrite (str_live _ _ _ _ _ Hb2) by (cbn; lia).
  change (N.to_nat 0) with O. by rewrite drop_0, Nat2N.id, firstn_all.
Qed.

Lemma view_stays_valid_witness :
  ∃ d2 : list char,
    read_bytes (View.mk (Ptr 1%positive 0) 2)
      (<[2%positive := ["005"; "033"]%byte]>
         (<[1%positive := ["005"; "033"]%byte]> (∅ : heap)))
    = Some (Val d2,
            <[2%positive := ["005"; "033"]%byte]>
              (<[1%positive := ["005"; "033"]%byte]> (∅ : heap))).
Proof.
  destruct (view_stays_valid (P := lp64) tt via_MapCurrent via_MapDiscard
              (one_buffer ["005"; "006"]%byte) (one_buffer ["005"; "006"]%byte)
              (<[2%positive := ["005"; "033"]%byte]>
                 (<[1%positive := ["005"; "033"]%byte]> (∅ : heap)))
              1%positive (View.mk (Ptr 1%positive 0) 2)
              [ op_write (View.mk (Ptr 1%positive 0) 2) 1 "033"%byte;
                op_WriteBack tt (View.mk (Ptr 1%positive 0) 2);
                op_Clone 1%positive ]
              (Val tt))
    as (d2 & _ & _ & Hr & _).
  - vm_compute. reflexivity.
  - vm_compute. reflexivity.
  - by exists d2.
Defined.

(** ** More on str and on copying bytes in *)

Lemma length_string_of_list_byte (l : list char) :
  String.length (string_of_list_byte l) = length l.
Proof. induction l as [| c l IH]; cbn; [done | by f_equal]. Qed.

(** X11 — [str] of an empty view.  For a view whose [size()] is 0 —
    the default-constructed [View] with its null data pointer, a view of
    a 0-byte buffer, or any other — [str()] returns the empty string on
    every heap and dereferences nothing, whatever the data pointer. *)
Theorem str_of_empty_view (v : View) (h : heap) :
  View.size v = 0 →
  View.str v h = Some (Val ""%string, h).
Proof.
  destruct v as [p n]. cbn. intros ->.
  unfold View.str, View.cbegin, View.cend, string_from_range.
  cbn [View.data_ View.size_]. destruct p as [| b off]; [done |].
  by rewrite ptr_diff_add.
Qed.

Lemma str_of_empty_view_witness :
  View.str View.default (∅ : heap) = Some (Val ""%string, (∅ : heap)).
Proof. apply (str_of_empty_view View.default (∅ : heap)). reflexivity. Defined.

(** X12 — [str] keeps every byte.  On a view mapped from a live
    [SimpleBuffer], [str()] returns a string with exactly [size()]
    characters whose bytes are the buffer's contents, zero bytes
    included: converting the string back to bytes gives the contents
    again. *)
Theorem str_keeps_every_byte {Context : Type} (ctx : Context) (k : map_kind)
    (h : heap) (b : BufferPtr) (d : list char) :
  h !! b = Some d →
  ∃ s : string,
    (v <~ map_view k ctx b ;; View.str v) h = Some (Val s, h)
    ∧ list_byte_of_string s = d
    ∧ String.length s = length d.
Proof.
  intros Hb. exists (string_of_list_byte d).
  split; [| split].
  - step (map_view_live ctx _ _ _ Hb k).
    rewrite (str_live _ _ _ _ _ Hb) by (cbn; lia).
    change (N.to_nat 0) with O. by rewrite drop_0, Nat2N.id, firstn_all.
  - apply list_byte_of_string_of_list_byte.
  - apply length_string_of_list_byte.
Qed.

Lemma str_keeps_every_byte_witness :
  ∃ s : string,
    (v <~ map_view via_MapCurrent tt 1%positive ;; View.str v)
      (one_buffer ["104"; "000"; "105"]%byte)
    = Some (Val s, one_buffer ["104"; "000"; "105"]%byte)
    ∧ list_byte_of_string s = ["104"; "000"; "105"]%byte.
Proof.
  destruct (str_keeps_every_byte tt via_MapCurrent _ _ _
              (one_buffer_live ["104"; "000"; "105"]%byte))
    as (s & Hs & Hb & _).
  by exists s.
Defined.

(** Copying past the end of the vector is undefined. *)
Lemma write_bytes_overflow (b : addr) (n : size_t) (B : list char) :
  ∀ (h : heap) (d : list char) (pos : N),
  h !! b = Some d → B ≠ [] → (length d < N.to_nat pos + length B)%nat →
  write_bytes (View.mk (Ptr b 0) n) pos B h = None.
Proof.
  induction B as [| c B IH]; intros h d pos Hb Hne Hlt; [done |].
  cbn [write_bytes length] in *. unfold bind.
  destruct (decide (N.to_nat pos < length d)%nat) as [Hin | Hout].
  - assert (Hs : View.write (View.mk (Ptr b 0) n) pos c h
                 = Some (Val tt, <[b := <[N.to_nat pos := c]> d]> h)).
    { unfold View.write, View.index. cbn [View.data_ ptr_add].
      rewrite N.add_0_l. exact (store_live _ _ _ _ _ Hb Hin). }
    rewrite Hs. apply (IH _ (<[N.to_nat pos := c]> d)).
    + apply lookup_insert_eq.
    + intros ->. cbn in Hlt. lia.
    + rewrite length_insert. lia.
  - unfold View.write, View.index, store. cbn [View.data_ ptr_add].
    rewrite N.add_0_l, Hb. by destruct (decide _).
Qed.

(** X13 — Copying a byte sequence in through [operator[]].  On a view
    mapped from a live [SimpleBuffer], assigning the bytes of [B] to the
    indexes from [pos] on replaces exactly that slice of the buffer and
    nothing before or after it, provided the slice fits; if a non-empty
    [B] reaches past the end of the buffer the copy is undefined — it
    neither grows the buffer nor stops at its end. *)
Theorem write_bytes_slice {Context : Type} (ctx : Context) (k : map_kind)
    (h : heap) (b : BufferPtr) (d B : list char) (pos : size_t) :
  h !! b = Some d →
  ((N.to_nat pos + length B ≤ length d)%nat →
   (v <~ map_view k ctx b ;; write_bytes v pos B) h
   = Some (Val tt,
           <[b := take (N.to_nat pos) d ++ B
                  ++ drop (N.to_nat pos + length B) d]> h))
  ∧ (B ≠ [] → (length d < N.to_nat pos + length B)%nat →
     (v <~ map_view k ctx b ;; write_bytes v pos B) h = None).
Proof.
  intros Hb. split.
  - intros Hfit. step (map_view_live ctx _ _ _ Hb k).
    exact (write_bytes_live _ _ _ _ _ _ Hb Hfit).
  - intros Hne Hover. step (map_view_live ctx _ _ _ Hb k).
    exact (write_bytes_overflow _ _ _ _ _ _ Hb Hne Hover).
Qed.

Lemma write_bytes_slice_witness :
  (v <~ map_view via_MapDiscard tt 1%positive ;;
   write_bytes v 1 ["120"; "121"]%byte)
    (one_buffer ["097"; "098"; "099"; "100"]%byte)
  = Some (Val tt,
          <[1%positive := ["097"; "120"; "121"; "100"]%byte]>
            (one_buffer ["097"; "098"; "099"; "100"]%byte))
  ∧ (v <~ map_view via_MapDiscard tt 1%positive ;;
     write_bytes v 3 ["120"; "121"]%byte)
      (one_buffer ["097"; "098"; "099"; "100"]%byte) = None.
Proof.
  destruct (write_bytes_slice tt via_MapDiscard _ _ _ ["120"; "121"]%byte 1
              (one_buffer_live ["097"; "098"; "099"; "100"]%byte)) as [Hfit _].
  destruct (write_bytes_slice tt via_MapDiscard _ _ _ ["120"; "121"]%byte 3
              (one_buffer_live ["097"; "098"; "099"; "100"]%byte)) as [_ Hover].
  split.
  - apply Hfit. cbn. lia.
  - apply Hover; [discriminate | cbn; lia].
Defined.

(** ** Clone copies what the views have written *)

(** X14 — [Clone] copies the bytes as they are now.  A byte assigned
    through a view of a live [SimpleBuffer], with no [WriteBack] called,
    is part of what a following [Clone] copies: the clone reads as the
    original's contents with that byte replaced. *)
Theorem Clone_sees_unwritten_back_bytes {Context : Type} (ctx : Context)
    (k k' : map_kind) (h : heap) (b : BufferPtr) (d : list char)
    (pos : size_t) (c : char) :
  h !! b = Some d →
  pos < N.of_nat (length d) →
  ∃ h' : heap,
    (v <~ map_view k ctx b ;;
     View.write v pos c ;;;
     b2 <~ SimpleBuffer.Clone b ;;
     v2 <~ map_view k' ctx b2 ;;
     read_bytes v2) h
    = Some (Val (<[N.to_nat pos := c]> d), h').
Proof.
  intros Hb Hpos. eexists.
  step (map_view_live ctx _ _ _ Hb k).
  assert (Hw : View.write (View.mk (Ptr b 0) (N.of_nat (length d))) pos c h
               = Some (Val tt, <[b := <[N.to_nat pos := c]> d]> h)).
  { unfold View.write, View.index. cbn [View.data_ ptr_add].
    rewrite N.add_0_l. apply (store_live _ _ _ _ _ Hb). lia. }
  step Hw.
  set (h1 := <[b := <[N.to_nat pos := c]> d]> h).
  assert (Hb1 : h1 !! b = Some (<[N.to_nat pos := c]> d))
    by apply lookup_insert_eq.
  step (Clone_live _ _ _ Hb1).
  assert (Hb2 : (<[fresh (dom h1) := <[N.to_nat pos := c]> d]> h1 : heap)
                  !! fresh (dom h1) = Some (<[N.to_nat pos := c]> d))
    by apply lookup_insert_eq.
  step (map_view_live ctx _ _ _ Hb2 k').
  exact (read_bytes_live _ _ _ Hb2).
Qed.

Lemma Clone_sees_unwritten_back_bytes_witness :
  ∃ h' : heap,
    (v <~ map_view via_MapDiscard tt 1%positive ;;
     View.write v 1 "042"%byte ;;;
     b2 <~ SimpleBuffer.Clone 1%positive ;;
     v2 <~ map_view via_MapCurrent tt b2 ;;
     read_bytes v2) (one_buffer ["001"; "002"; "003"]%byte)
    = Some (Val (<[N.to_nat 1 := "042"%byte]> ["001"; "002"; "003"]%byte), h').
Proof.
  apply (Clone_sees_unwritten_back_bytes tt via_MapDiscard via_MapCurrent
           _ _ _ 1 "042"%byte (one_buffer_live _)).
  reflexivity.
Defined.

(** ** Size of any buffer *)

(** X15 — The size of any live buffer is fixed.  However a
    [SimpleBuffer] came to be (either constructor, or [Clone]), it stays
    live and its [size()] returns the same number before and after any
    sequence of calls that runs without undefined behaviour. *)
Theorem size_invariant_under_run {P : Platform} {Context : Type}
    (os : list (op Context))
    (h h' : heap) (r : outcome unit) (b : BufferPtr) (d : list char) :
  h !! b = Some d →
  run os h = Some (r, h') →
  SimpleBuffer.size b h = Some (Val (N.of_nat (length d)), h)
  ∧ SimpleBuffer.size b h' = Some (Val (N.of_nat (length d)), h').
Proof.
  intros Hb Hrun. split; [exact (size_live _ _ _ Hb) |].
  destruct (keeps_sizes_run os _ _ _ Hrun _ _ Hb) as (d' & Hb' & Hlen).
  rewrite <- Hlen. exact (size_live _ _ _ Hb').
Qed.

Lemma size_invariant_under_run_witness :
  SimpleBuffer.size 1%positive
    (<[2%positive := ["009"; "002"]%byte]>
       (<[1%positive := ["001"; "255"]%byte]> (∅ : heap)))
  = Some (Val (N.of_nat (length ["001"; "002"]%byte)),
          <[2%positive := ["009"; "002"]%byte]>
            (<[1%positive := ["001"; "255"]%byte]> (∅ : heap))).
Proof.
  apply (size_invariant_under_run (P := lp64) (Context := unit)
           [ op_Clone 1%positive;
             op_write (View.mk (Ptr 2%positive 0) 2) 0 "009"%byte;
             op_write (View.mk (Ptr 1%positive 0) 2) 1 "255"%byte ]
           (one_buffer ["001"; "002"]%byte) _ (Val tt)).
  - apply one_buffer_live.
  - vm_compute. reflexivity.
Defined.
